(** * Routing and relay core of the A2A orchestrator

    A shallow embedding of
    [agents/orchestrator/routing_agent.py] (discovery, two-stage routing,
    the router's event stream) and [agents/orchestrator/executor.py]
    (the relay loop that turns helper events into task events), followed
    by the properties of the specification that concern them.

    Conventions of the model.
    - A Python [str] is a Rocq [string].  Case folding and the regular
      expression class [\s] are those of the ASCII range, where Python's
      [str.lower] and [re] agree with the definitions below; other bytes
      are carried unchanged.
    - A Python [dict] is an association list in insertion order with
      pairwise distinct keys; lookups take the first binding.
    - Values of dynamic type (helper events, [model_dump()] results) are
      terms of [pyval].  Floats do not occur in the code under study.
    - Code that may raise returns [exn + A]; generators are the list of
      values they yield together with the way they end.
    - Freshly drawn identifiers ([uuid4]) are not part of the model. *)

From Stdlib Require Import List String Ascii Bool ZArith Arith Lia.
Import ListNotations.
Local Open Scope string_scope.
Local Open Scope list_scope.

Set Implicit Arguments.

(* ------------------------------------------------------------------ *)
(** ** Python values *)

Module Py.

Unset Elimination Schemes.
Inductive pyval : Type :=
| PNone
| PBool (b : bool)
| PInt (z : Z)
| PStr (s : string)
| PList (items : list pyval)
| PDict (entries : list (string * pyval)).
Set Elimination Schemes.

(** Induction that reaches inside lists and dictionaries. *)
Section PyvalInd.
Variable P : pyval -> Prop.
Hypothesis HNone : P PNone.
Hypothesis HBool : forall b, P (PBool b).
Hypothesis HInt : forall z, P (PInt z).
Hypothesis HStr : forall s, P (PStr s).
Hypothesis HList : forall l, Forall P l -> P (PList l).
Hypothesis HDict : forall d, Forall (fun kv => P (snd kv)) d -> P (PDict d).

Fixpoint pyval_ind (v : pyval) : P v :=
  match v with
  | PNone => HNone
  | PBool b => HBool b
  | PInt z => HInt z
  | PStr s => HStr s
  | PList l =>
      HList ((fix go (l : list pyval) : Forall P l :=
                match l with
                | [] => Forall_nil _
                | x :: r => Forall_cons x (pyval_ind x) (go r)
                end) l)
  | PDict d =>
      HDict ((fix go (d : list (string * pyval))
                : Forall (fun kv => P (snd kv)) d :=
                match d with
                | [] => Forall_nil _
                | kv :: r => Forall_cons kv (pyval_ind (snd kv)) (go r)
                end) d)
  end.
End PyvalInd.

(** [bool(v)]: the truth value Python gives to [v] in a condition. *)
Definition truthy (v : pyval) : bool :=
  match v with
  | PNone => false
  | PBool b => b
  | PInt z => negb (Z.eqb z 0)
  | PStr s => negb (String.eqb s EmptyString)
  | PList l => match l with [] => false | _ => true end
  | PDict d => match d with [] => false | _ => true end
  end.

(** [v == s] for a string literal [s]. *)
Definition eq_str (v : pyval) (s : string) : bool :=
  match v with
  | PStr t => String.eqb t s
  | _ => false
  end.

End Py.
Export Py.

(* ------------------------------------------------------------------ *)
(** ** Dictionaries *)

Section Dict.
Variable V : Type.

Definition dict := list (string * V).

(** [d.get(k)], with [None] kept apart from a stored value. *)
Fixpoint dict_get (d : dict) (k : string) : option V :=
  match d with
  | [] => None
  | (k', v) :: r => if String.eqb k k' then Some v else dict_get r k
  end.

(** [k in d] *)
Definition dict_has (d : dict) (k : string) : bool :=
  match dict_get d k with Some _ => true | None => false end.

(** [d[k] = v]: a known key keeps its place, a new key goes last. *)
Fixpoint dict_set (d : dict) (k : string) (v : V) : dict :=
  match d with
  | [] => [(k, v)]
  | (k', v') :: r =>
      if String.eqb k k' then (k', v) :: r else (k', v') :: dict_set r k v
  end.

Definition dict_keys (d : dict) : list string := map fst d.
Definition dict_values (d : dict) : list V := map snd d.
End Dict.

Arguments dict_get {V} d k.
Arguments dict_has {V} d k.
Arguments dict_set {V} d k v.
Arguments dict_keys {V} d.
Arguments dict_values {V} d.

(** [d.get(k)] on a dictionary of Python values: a missing key reads as
    [None]. *)
Definition py_get (d : dict pyval) (k : string) : pyval :=
  match dict_get d k with Some v => v | None => PNone end.

(* ------------------------------------------------------------------ *)
(** ** executor.py: [_first_text] *)

Fixpoint _first_text (node : pyval) : pyval :=
  match node with
  | PDict d =>
      if eq_str (py_get d "kind") "text" then py_get d "text"
      else
        (fix over_values (vs : list (string * pyval)) : pyval :=
           match vs with
           | [] => PNone
           | (_, v) :: r =>
               let t := _first_text v in
               if truthy t then t else over_values r
           end) d
  | PList l =>
      (fix over_items (items : list pyval) : pyval :=
         match items with
         | [] => PNone
         | item :: r =>
             let t := _first_text item in
             if truthy t then t else over_items r
         end) l
  | _ => PNone
  end.

(** The two inner loops of [_first_text], named. *)
Fixpoint first_truthy (results : list pyval) : pyval :=
  match results with
  | [] => PNone
  | t :: r => if truthy t then t else first_truthy r
  end.

(** *** The search order, as the specification words it *)

(** A node of kind "text". *)
Definition is_text_node (node : pyval) : bool :=
  match node with
  | PDict d => eq_str (py_get d "kind") "text"
  | _ => false
  end.

(** The text a node of kind "text" carries ([None] when it has none). *)
Definition text_of (node : pyval) : pyval :=
  match node with
  | PDict d => py_get d "text"
  | _ => PNone
  end.

(** The nodes of kind "text" of a structure, depth first, children in
    their stored order.  Such a node is a leaf: nothing below it is
    visited. *)
Fixpoint text_leaves (node : pyval) : list pyval :=
  match node with
  | PDict d =>
      if eq_str (py_get d "kind") "text" then [node]
      else flat_map (fun kv => text_leaves (snd kv)) d
  | PList l => flat_map text_leaves l
  | _ => []
  end.

(** A leaf bears text when its text is non-empty (truthy). *)
Definition text_bearing (leaf : pyval) : bool := truthy (text_of leaf).

Definition first_text_bearing_leaf (node : pyval) : option pyval :=
  find text_bearing (text_leaves node).

(* ------------------------------------------------------------------ *)
(** ** Strings: [str.lower], [in], and the URL pattern *)

(** [c.lower()] on the ASCII range. *)
Definition lower_char (c : ascii) : ascii :=
  let n := nat_of_ascii c in
  if ((65 <=? n) && (n <=? 90))%nat then ascii_of_nat (n + 32) else c.

Fixpoint lower (s : string) : string :=
  match s with
  | EmptyString => EmptyString
  | String c r => String (lower_char c) (lower r)
  end.

(** [sub in s] *)
Fixpoint str_in (sub s : string) : bool :=
  if String.prefix sub s then true
  else match s with
       | EmptyString => false
       | String _ r => str_in sub r
       end.

(** [s] with the literal [p] removed from its front, when it starts
    with it. *)
Fixpoint strip_prefix (p s : string) : option string :=
  match p with
  | EmptyString => Some s
  | String a p' =>
      match s with
      | EmptyString => None
      | String b s' => if Ascii.eqb a b then strip_prefix p' s' else None
      end
  end.

(** The class [\s]. *)
Definition is_space (c : ascii) : bool :=
  let n := nat_of_ascii c in
  (((9 <=? n) && (n <=? 13)) || ((28 <=? n) && (n <=? 31)) || (n =? 32))%nat.

(** The class of the pattern's tail: anything but white space, the two
    quote characters (codes 34 and 39) and the angle brackets (60, 62). *)
Definition url_char (c : ascii) : bool :=
  negb (is_space c
        || (nat_of_ascii c =? 34)%nat || (nat_of_ascii c =? 39)%nat
        || (nat_of_ascii c =? 60)%nat || (nat_of_ascii c =? 62)%nat).

(** The longest run of characters of a class at the front of [s]. *)
Fixpoint take_while (p : ascii -> bool) (s : string) : string :=
  match s with
  | EmptyString => EmptyString
  | String c r => if p c then String c (take_while p r) else EmptyString
  end.

(** The pattern's tail at the front of [s]: the separator [://] and
    then one or more characters of the class, as many as there are;
    yields that run. *)
Definition match_tail (s : string) : option string :=
  match strip_prefix "://" s with
  | None => None
  | Some r =>
      match take_while url_char r with
      | EmptyString => None
      | body => Some body
      end
  end.

(** The whole pattern at the front of [s]: [http], an optional [s],
    then the tail.  The optional [s] is tried first; when the rest then
    fails the matcher goes on without it. *)
Definition match_here (s : string) : option string :=
  match strip_prefix "http" s with
  | None => None
  | Some r =>
      let with_s :=
        match strip_prefix "s" r with
        | Some r' => match_tail r'
        | None => None
        end in
      match with_s with
      | Some body => Some ("https://" ++ body)%string
      | None =>
          match match_tail r with
          | Some body => Some ("http://" ++ body)%string
          | None => None
          end
      end
  end.

(** [re.search] with the pattern of [_choose_agent]: the match at the
    leftmost position that has one. *)
Fixpoint re_search (s : string) : option string :=
  match match_here s with
  | Some m => Some m
  | None =>
      match s with
      | EmptyString => None
      | String _ r => re_search r
      end
  end.

(* ------------------------------------------------------------------ *)
(** ** Exceptions *)

Inductive exn : Type :=
| ValueError
| KeyError
| IndexError
| TypeError
| ValidationError
| RuntimeFailure (what : string).

Definition result (A : Type) : Type := (exn + A)%type.

Definition ret {A} (a : A) : result A := inr a.
Definition raise {A} (e : exn) : result A := inl e.
Definition bind {A B} (m : result A) (k : A -> result B) : result B :=
  match m with
  | inl e => inl e
  | inr a => k a
  end.

Notation "x <- m ;; k" := (bind m (fun x => k))
  (at level 61, m at next level, right associativity).

(* ------------------------------------------------------------------ *)
(** ** Agent cards and the router's state *)

Record AgentSkill : Type := {
  skill_id : string;
  skill_name : string;
  skill_description : string;
  skill_tags : list string;
  skill_examples : list string
}.

Record AgentCard : Type := {
  card_url : string;
  card_name : string;
  card_description : string;
  card_skills : list AgentSkill
}.

(** The fields of [OrchestratorRoutingAgent] that change or are read
    after construction. *)
Record Router : Type := {
  peer_urls : list string;
  cards : dict AgentCard;
  last_discovery : Z
}.

Definition DISCOVERY_INTERVAL : Z := 600.

(** What one [GET] of an agent card comes to inside the [try] block of
    [_fetch_card]: the request fails or times out, the status is
    refused by [raise_for_status], the body is no valid card, or a card
    is obtained. *)
Inductive http_result : Type :=
| RequestFailed
| StatusRefused (code : nat)
| PayloadRejected
| CardReceived (c : AgentCard).

(** A helper event as the executor sees it, after [model_dump]. *)
Definition event : Type := dict pyval.

(** How the iteration over [client.send_message(...)] ends: the stream
    is exhausted, it breaks with one of the three exceptions the router
    catches, or it raises something else. *)
Inductive stream_end : Type :=
| Exhausted
| TransportClosed
| StreamFailed (e : exn).

Record helper_stream : Type := {
  hs_events : list event;
  hs_end : stream_end
}.

(** A generator, observed: what it yields and the exception, if any,
    that ends it. *)
Record generator (A : Type) : Type := {
  yielded : list A;
  ending : option exn
}.

(* ------------------------------------------------------------------ *)
(** ** routing_agent.py *)

(** The URL-or-NONE convention of the router. *)
Definition NONE : string := "NONE".

(** The two dictionaries the router yields on its own account. *)
Definition progress (complete : bool) (content : string) : event :=
  [ ("is_task_complete", PBool complete);
    ("require_user_input", PBool false);
    ("content", PStr content) ].

Definition no_helper_text : string :=
  "I’m sorry – none of my helper agents can answer that.".

Definition asking_text (name : string) : string :=
  ("Asking **" ++ name ++ "**…")%string.

Section RoutingAgent.
(** The network, the language model and the client factory, as the
    router uses them.  [oracle] receives the cards listed in the
    prompt and the question and gives the reply's text; [create_client]
    gives, for a card, the stream that [send_message] produces for a
    query. *)
Variable http_get : string -> http_result.
Variable oracle : list AgentCard -> string -> result string.
Variable create_client : AgentCard -> result (string -> helper_stream).

Definition _fetch_card (url : string) : option AgentCard :=
  match http_get (url ++ "/.well-known/agent-card.json")%string with
  | CardReceived c => Some c
  | RequestFailed | StatusRefused _ | PayloadRejected => None
  end.

(** [{c.url: c for c in found if c}] *)
Definition cards_by_url (found : list (option AgentCard)) : dict AgentCard :=
  fold_left
    (fun d oc =>
       match oc with
       | Some c => dict_set d (card_url c) c
       | None => d
       end)
    found [].

(** [_discover], finishing at time [done]. *)
Definition _discover (done : Z) (self : Router) : Router :=
  let found := map _fetch_card (peer_urls self) in
  {| peer_urls := peer_urls self;
     cards := cards_by_url found;
     last_discovery := done |}.

(** What [_choose_agent] makes of the oracle's reply. *)
Definition parse_reply (content : string) : string :=
  match re_search content with
  | Some m => m
  | None => NONE
  end.

Definition _choose_agent (self : Router) (question : string) : result string :=
  reply <- oracle (dict_values (cards self)) question ;;
  ret (parse_reply reply).

(** The inner loop of [_fallback_by_tags] over the skills of one card. *)
Fixpoint scan_skills (q : string) (c : AgentCard) (sks : list AgentSkill)
  : option string :=
  match sks with
  | [] => None
  | sk :: r =>
      if negb (String.eqb (skill_id sk) EmptyString)
         && str_in (lower (skill_id sk)) q
      then Some (card_url c)
      else if existsb (fun tag => str_in (lower tag) q) (skill_tags sk)
      then Some (card_url c)
      else scan_skills q c r
  end.

Fixpoint scan_cards (q : string) (cs : list AgentCard) : string :=
  match cs with
  | [] => NONE
  | c :: r =>
      match scan_skills q c (card_skills c) with
      | Some url => url
      | None => scan_cards q r
      end
  end.

Definition _fallback_by_tags (self : Router) (q : string) : string :=
  scan_cards q (dict_values (cards self)).

(** [helper_url == "NONE" or helper_url not in self.cards] *)
Definition no_target (self : Router) (helper_url : string) : bool :=
  String.eqb helper_url NONE || negb (dict_has (cards self) helper_url).

(** Lines 64 to 66 of [stream]: the choice between the two stages. *)
Definition resolve (self : Router) (stage1 query : string) : string :=
  if no_target self stage1
  then _fallback_by_tags self (lower query)
  else stage1.

(** [stream], entered at time [now]; a refresh it starts finishes at
    time [done]. *)
Definition stream (now done : Z) (self : Router) (query : string)
  : Router * generator event :=
  let self :=
    if (now - last_discovery self >? DISCOVERY_INTERVAL)%Z
    then _discover done self else self in
  match _choose_agent self query with
  | inl e => (self, {| yielded := []; ending := Some e |})
  | inr stage1 =>
      let helper_url := resolve self stage1 query in
      if no_target self helper_url then
        (self, {| yielded := [progress true no_helper_text];
                  ending := None |})
      else
        match dict_get (cards self) helper_url with
        | None => (self, {| yielded := []; ending := Some KeyError |})
        | Some card =>
            match create_client card with
            | inl e => (self, {| yielded := []; ending := Some e |})
            | inr send_message =>
                let hs := send_message query in
                (self,
                 {| yielded :=
                      progress false (asking_text (card_name card))
                      :: hs_events hs;
                    ending :=
                      match hs_end hs with
                      | StreamFailed e => Some e
                      | Exhausted | TransportClosed => None
                      end |})
            end
        end
  end.
End RoutingAgent.

(** [OrchestratorRoutingAgent.__init__]: the fields are set and one
    discovery is run to its end, at time [done], before the object is
    handed out. *)
Definition __init__ (http_get : string -> http_result) (done : Z)
  (peer_urls : list string) : Router :=
  _discover http_get done
    {| peer_urls := peer_urls; cards := []; last_discovery := 0 |}.

(* ------------------------------------------------------------------ *)
(** ** orchestrator/__main__.py *)

(** [s.lstrip()], [s.rstrip()] and [s.strip()] *)
Fixpoint lstrip (s : string) : string :=
  match s with
  | EmptyString => EmptyString
  | String c r => if is_space c then lstrip r else s
  end.

Fixpoint rstrip (s : string) : string :=
  match s with
  | EmptyString => EmptyString
  | String c r =>
      match rstrip r with
      | EmptyString => if is_space c then EmptyString else String c EmptyString
      | kept => String c kept
      end
  end.

Definition strip (s : string) : string := rstrip (lstrip s).

(** [s.split(sep)] for a separator of one character. *)
Fixpoint split (sep : ascii) (s : string) : list string :=
  match s with
  | EmptyString => [EmptyString]
  | String c r =>
      if Ascii.eqb c sep then EmptyString :: split sep r
      else match split sep r with
           | field :: fields => String c field :: fields
           | [] => [String c EmptyString]
           end
  end.

Definition comma : ascii := Ascii.ascii_of_nat 44.

(** [[p.strip() for p in peers.split(",") if p.strip()]] *)
Definition parse_peers (peers : string) : list string :=
  map strip
    (filter (fun p => negb (String.eqb (strip p) EmptyString))
       (split comma peers)).

(** How [main] goes: it prints a message and exits, it fails on the
    unset option, or it builds the router and serves. *)
Inductive startup : Type :=
| Exited (code : nat) (printed : string)
| AttributeErrorRaised
| Serving (router : Router).

(** [main], with the value of the environment variable GOOGLE_API_KEY
    and of the option [--peers] (or A2A_PEERS), unset when neither is
    given; the discovery that the constructor runs finishes at [done]. *)
Definition main (http_get : string -> http_result) (done : Z)
  (GOOGLE_API_KEY : option string) (peers : option string) : startup :=
  match GOOGLE_API_KEY with
  | None => Exited 1 "GOOGLE_API_KEY not set"
  | Some key =>
      if String.eqb key EmptyString then Exited 1 "GOOGLE_API_KEY not set"
      else
        match peers with
        | None => AttributeErrorRaised
        | Some listed =>
            match parse_peers listed with
            | [] => Exited 1 "No peer agent URLs supplied (use --peers or A2A_PEERS)"
            | peer_urls => Serving (__init__ http_get done peer_urls)
            end
        end
  end.

(* ------------------------------------------------------------------ *)
(** ** executor.py *)

Inductive TaskState : Type :=
| submitted | working | input_required | completed | canceled
| failed | rejected | auth_required | unknown.

Record TaskStatus : Type := {
  state : TaskState;
  status_message : option pyval
}.

Record Task : Type := {
  task_id : string;
  context_id : string
}.

(** The incoming message, as far as the executor reads it:
    [get_user_input()] is its text. *)
Record Message : Type := {
  user_input : string
}.

Record RequestContext : Type := {
  message : option Message;
  current_task : option Task
}.

(** What [enqueue_event] is called with. *)
Inductive queue_event : Type :=
| TaskEvent (t : Task)
| TaskArtifactUpdateEvent
    (taskId contextId : string) (artifact : pyval) (append lastChunk : bool)
| TaskStatusUpdateEvent
    (taskId contextId : string) (status : TaskStatus) (final : bool).

(** [new_agent_text_message]: a message of one text part; the part's
    model accepts a string only. *)
Definition new_agent_text_message (text : pyval) (contextId taskId : string)
  : result pyval :=
  match text with
  | PStr s =>
      ret (PDict [ ("role", PStr "agent");
                   ("parts", PList [PDict [ ("kind", PStr "text");
                                            ("text", PStr s) ]]);
                   ("context_id", PStr contextId);
                   ("task_id", PStr taskId) ])
  | _ => raise ValidationError
  end.

(** [new_text_artifact] *)
Definition new_text_artifact (name description : string) (text : pyval)
  : result pyval :=
  match text with
  | PStr s =>
      ret (PDict [ ("name", PStr name);
                   ("description", PStr description);
                   ("parts", PList [PDict [ ("kind", PStr "text");
                                            ("text", PStr s) ]]) ])
  | _ => raise ValidationError
  end.

(** [v[0]] *)
Definition subscript0 (v : pyval) : result pyval :=
  match v with
  | PList (x :: _) => ret x
  | PList [] => raise IndexError
  | PStr (String c _) => ret (PStr (String c EmptyString))
  | PStr EmptyString => raise IndexError
  | PDict _ => raise KeyError
  | PNone | PBool _ | PInt _ => raise TypeError
  end.

(** How one turn of the relay loop leaves it. *)
Inductive control : Type :=
| Next
| Stop
| Throw (e : exn).

Section Executor.
(** The models of the protocol library, as the executor uses them:
    [artifact_model a] is [model_dump()] of the artifact that the
    event model builds from [a], [TaskStatus_model_validate] is the
    class method; both give [None] where validation fails. *)
Variable artifact_model : pyval -> option pyval.
Variable TaskStatus_model_validate : pyval -> option TaskStatus.
Variable new_task : Message -> Task.

Definition _make_artifact_event (d : event) (task : Task) : result queue_event :=
  art <- match dict_get d "artifact" with
         | Some a => ret a
         | None =>
             match dict_get d "artifacts" with
             | Some l => subscript0 l
             | None => raise KeyError
             end
         end ;;
  match artifact_model art with
  | Some a =>
      ret (TaskArtifactUpdateEvent (task_id task) (context_id task) a false true)
  | None => raise ValidationError
  end.

Definition _make_status_event (d : event) (task : Task) : result queue_event :=
  match dict_get d "status" with
  | None => raise KeyError
  | Some s =>
      match TaskStatus_model_validate s with
      | Some st =>
          ret (TaskStatusUpdateEvent (task_id task) (context_id task) st false)
      | None => raise ValidationError
      end
  end.

(** The event that [_enqueue_completed] puts on the queue. *)
Definition _enqueue_completed (task : Task) (text : pyval) : result queue_event :=
  msg <- new_agent_text_message text (context_id task) (task_id task) ;;
  ret (TaskStatusUpdateEvent (task_id task) (context_id task)
         {| state := completed; status_message := Some msg |} true).

Definition artifact_of (e : queue_event) : pyval :=
  match e with
  | TaskArtifactUpdateEvent _ _ a _ _ => a
  | _ => PNone
  end.

(** The body of the [async for] loop for one helper event: the events
    it puts on the queue, in order, and how it leaves the loop. *)
Definition relay_step (task : Task) (ev : event) : list queue_event * control :=
  if dict_has ev "artifact" || dict_has ev "artifacts" then
    match _make_artifact_event ev task with
    | inl e => ([], Throw e)
    | inr artev =>
        let answer := _first_text (artifact_of artev) in
        match _enqueue_completed task answer with
        | inl e => ([artev], Throw e)
        | inr done => ([artev; done], Stop)
        end
    end
  else if eq_str (py_get ev "kind") "task" && dict_has ev "status" then
    match _make_status_event ev task with
    | inl e => ([], Throw e)
    | inr stat => ([stat], Next)
    end
  else if truthy (py_get ev "is_task_complete") then
    match dict_get ev "content" with
    | None => ([], Throw KeyError)
    | Some answer =>
        match new_text_artifact "answer" "Final answer from downstream agent" answer with
        | inl e => ([], Throw e)
        | inr art =>
            let artev :=
              TaskArtifactUpdateEvent (task_id task) (context_id task)
                art false true in
            match _enqueue_completed task answer with
            | inl e => ([artev], Throw e)
            | inr done => ([artev; done], Stop)
            end
        end
    end
  else
    match dict_get ev "content" with
    | None => ([], Throw KeyError)
    | Some content =>
        match new_agent_text_message content (context_id task) (task_id task) with
        | inl e => ([], Throw e)
        | inr msg =>
            ([TaskStatusUpdateEvent (task_id task) (context_id task)
                {| state := working; status_message := Some msg |} false],
             Next)
        end
    end.

(** The [async for] loop over what the router's generator yields;
    [fin] is the exception, if any, that ends the generator once all
    its events have been taken. *)
Fixpoint relay_loop (task : Task) (evs : list event) (fin : option exn)
  : list queue_event * option exn :=
  match evs with
  | [] => ([], fin)
  | ev :: rest =>
      match relay_step task ev with
      | (out, Next) =>
          let (out', res) := relay_loop task rest fin in
          (out ++ out', res)
      | (out, Stop) => (out, None)
      | (out, Throw e) => (out, Some e)
      end
  end.

Variable http_get : string -> http_result.
Variable oracle : list AgentCard -> string -> result string.
Variable create_client : AgentCard -> result (string -> helper_stream).

(** [execute]: the router as it is left, the events put on the queue,
    and the exception raised, if any. *)
Definition execute (now done : Z) (router : Router) (ctx : RequestContext)
  : Router * list queue_event * option exn :=
  match message ctx with
  | None => (router, [], Some ValueError)
  | Some m =>
      let query := user_input m in
      let orch_task :=
        match current_task ctx with
        | Some t => t
        | None => new_task m
        end in
      let created :=
        match current_task ctx with
        | None => [TaskEvent orch_task]
        | Some _ => []
        end in
      let (router', g) :=
        stream http_get oracle create_client now done router query in
      let (out, res) := relay_loop orch_task (yielded g) (ending g) in
      (router', created ++ out, res)
  end.
End Executor.

(* ------------------------------------------------------------------ *)
(** ** The helper agents *)

(** A step dictionary of a helper agent's stream. *)
Definition step_dict (complete need_input : bool) (content : string) : event :=
  [ ("is_task_complete", PBool complete);
    ("require_user_input", PBool need_input);
    ("content", PStr content) ].

(** An [async for] loop without [break]: every turn either goes on to
    the next step or raises. *)
Fixpoint consume (turn : event -> list queue_event * control)
  (steps : list event) (fin : option exn) : list queue_event * option exn :=
  match steps with
  | [] => ([], fin)
  | step :: rest =>
      match turn step with
      | (out, Next) =>
          let (out', res) := consume turn rest fin in
          (out ++ out', res)
      | (out, Stop) => (out, None)
      | (out, Throw e) => (out, Some e)
      end
  end.

(** *** time_agent/agent.py and time_agent/agent_executor.py *)

Module TimeAgent.

Inductive status_name : Type :=
| status_completed
| status_input_required
| status_error.

Record ResponseFormat : Type := {
  status : status_name;
  response_message : string
}.

(** The last message of a state that the graph streams, as far as
    [stream] looks at it. *)
Inductive graph_message : Type :=
| AIMessage (tool_calls : list string)
| ToolMessage
| OtherMessage.

(** One run of the graph: the last messages of the states it streams,
    the exception that ends the streaming, if any, and the structured
    response found in its state afterwards, if there is one of the
    right class. *)
Record graph_run : Type := {
  last_messages : list graph_message;
  failure : option exn;
  structured_response : option ResponseFormat
}.

Definition _final (structured : option ResponseFormat) : event :=
  match structured with
  | Some r =>
      let done :=
        match status r with
        | status_completed => true
        | status_input_required | status_error => false
        end in
      step_dict done (negb done) (response_message r)
  | None =>
      step_dict false true "Sorry, I couldn’t get the time. Please try again?"
  end.

(** What [stream] yields for one streamed state. *)
Definition note (msg : graph_message) : list event :=
  match msg with
  | AIMessage (_ :: _) => [step_dict false false "Fetching the local time…"]
  | AIMessage [] => []
  | ToolMessage => [step_dict false false "Formatting the result…"]
  | OtherMessage => []
  end.

Definition stream (run : graph_run) : generator event :=
  match failure run with
  | Some e =>
      {| yielded := flat_map note (last_messages run); ending := Some e |}
  | None =>
      {| yielded := flat_map note (last_messages run)
                    ++ [_final (structured_response run)];
         ending := None |}
  end.

(** The body of the loop of [TellTimeAgentExecutor.execute]. *)
Definition turn (task : Task) (step : event) : list queue_event * control :=
  match dict_get step "is_task_complete" with
  | None => ([], Throw KeyError)
  | Some complete =>
      if truthy complete then
        match dict_get step "content" with
        | None => ([], Throw KeyError)
        | Some text =>
            match new_text_artifact "current_result"
                    "Result of request to agent." text with
            | inl e => ([], Throw e)
            | inr art =>
                ([ TaskArtifactUpdateEvent (task_id task) (context_id task)
                     art false true;
                   TaskStatusUpdateEvent (task_id task) (context_id task)
                     {| state := completed; status_message := None |} true ],
                 Next)
            end
        end
      else
        match dict_get step "require_user_input" with
        | None => ([], Throw KeyError)
        | Some need_input =>
            match dict_get step "content" with
            | None => ([], Throw KeyError)
            | Some text =>
                match new_agent_text_message text (context_id task) (task_id task) with
                | inl e => ([], Throw e)
                | inr msg =>
                    if truthy need_input then
                      ([ TaskStatusUpdateEvent (task_id task) (context_id task)
                           {| state := input_required;
                              status_message := Some msg |} true ],
                       Next)
                    else
                      ([ TaskStatusUpdateEvent (task_id task) (context_id task)
                           {| state := working;
                              status_message := Some msg |} false ],
                       Next)
                end
            end
        end
  end.

(** [TellTimeAgentExecutor.execute] over the stream that the agent
    gives for the query and the context. *)
Definition execute (new_task : Message -> Task)
  (agent_stream : string -> string -> generator event) (ctx : RequestContext)
  : list queue_event * option exn :=
  match message ctx with
  | None => ([], Some ValueError)
  | Some m =>
      let query := user_input m in
      let task :=
        match current_task ctx with
        | Some t => t
        | None => new_task m
        end in
      let created :=
        match current_task ctx with
        | None => [TaskEvent task]
        | Some _ => []
        end in
      let g := agent_stream query (context_id task) in
      let (out, res) := consume (turn task) (yielded g) (ending g) in
      (created ++ out, res)
  end.

End TimeAgent.

(** *** greet_agent/quote_agent.py and greet_agent/agent_executor.py *)

Module GreetAgent.

(** [stream]; [model] stands for the language model's reply to the
    query, an exception when the call fails. *)
Definition stream (model : string -> result string) (query : string)
  : generator event :=
  match model query with
  | inl e =>
      {| yielded := [step_dict false false "Crafting your personalized greeting…"];
         ending := Some e |}
  | inr content =>
      {| yielded := [ step_dict false false "Crafting your personalized greeting…";
                      step_dict true false (strip content) ];
         ending := None |}
  end.

(** The body of the loop of [GreetAgentExecutor.execute]. *)
Definition turn (task : Task) (step : event) : list queue_event * control :=
  match dict_get step "is_task_complete" with
  | None => ([], Throw KeyError)
  | Some complete =>
      match dict_get step "content" with
      | None => ([], Throw KeyError)
      | Some text =>
          if truthy complete then
            match new_text_artifact "greeting" "Greeting with quote" text with
            | inl e => ([], Throw e)
            | inr art =>
                ([ TaskArtifactUpdateEvent (task_id task) (context_id task)
                     art false true;
                   TaskStatusUpdateEvent (task_id task) (context_id task)
                     {| state := completed; status_message := None |} true ],
                 Next)
            end
          else
            match new_agent_text_message text (context_id task) (task_id task) with
            | inl e => ([], Throw e)
            | inr msg =>
                ([ TaskStatusUpdateEvent (task_id task) (context_id task)
                     {| state := working; status_message := Some msg |} false ],
                 Next)
            end
      end
  end.

Definition execute (new_task : Message -> Task)
  (agent_stream : string -> string -> generator event) (ctx : RequestContext)
  : list queue_event * option exn :=
  match message ctx with
  | None => ([], Some ValueError)
  | Some m =>
      let query := user_input m in
      let task :=
        match current_task ctx with
        | Some t => t
        | None => new_task m
        end in
      let created :=
        match current_task ctx with
        | None => [TaskEvent task]
        | Some _ => []
        end in
      let g := agent_stream query (context_id task) in
      let (out, res) := consume (turn task) (yielded g) (ending g) in
      (created ++ out, res)
  end.

End GreetAgent.

(* ------------------------------------------------------------------ *)
(** ** client/streamlit_app.py *)

Module Client.

(** The values that [for x in v] goes through; [None], booleans and
    numbers cannot be iterated. *)
Fixpoint chars (s : string) : list pyval :=
  match s with
  | EmptyString => []
  | String c r => PStr (String c EmptyString) :: chars r
  end.

Definition py_iter (v : pyval) : result (list pyval) :=
  match v with
  | PList l => ret l
  | PDict d => ret (map (fun kv => PStr (fst kv)) d)
  | PStr s => ret (chars s)
  | PNone | PBool _ | PInt _ => raise TypeError
  end.

(** The exception for [p.get] on a value that is no dictionary. *)
Definition AttributeError : exn := RuntimeFailure "AttributeError".

(** The search loops: the first truthy result wins, an exception on
    the way ends the search. *)
Fixpoint first_text_of (results : list (result pyval)) : result pyval :=
  match results with
  | [] => ret PNone
  | r :: rest =>
      match r with
      | inl e => raise e
      | inr txt => if truthy txt then ret txt else first_text_of rest
      end
  end.

(** The loop over the parts in [_artifact_text]: the text of the first
    part of kind text, whatever it is; [None] stands for the loop
    running to its end. *)
Fixpoint scan_parts (parts : list pyval) : result (option pyval) :=
  match parts with
  | [] => ret None
  | p :: rest =>
      match p with
      | PDict pd =>
          if eq_str (py_get pd "kind") "text" then ret (Some (py_get pd "text"))
          else scan_parts rest
      | _ => raise AttributeError
      end
  end.

Definition _artifact_text (art : pyval) : result pyval :=
  match art with
  | PDict d =>
      parts <- py_iter (match dict_get d "parts" with
                        | Some v => v
                        | None => PList []
                        end) ;;
      found <- scan_parts parts ;;
      match found with
      | Some txt => ret txt
      | None => ret (py_get d "text")
      end
  | _ => ret PNone
  end.

Section Lookup.
Variable A : Type.
Variable k : string.
Variable absent : A.
Variable present : pyval -> A.

(** [present (d[k])] when [k in d], [absent] otherwise. *)
Fixpoint with_entry (d : list (string * pyval)) : A :=
  match d with
  | [] => absent
  | (k', v) :: r => if String.eqb k k' then present v else with_entry r
  end.
End Lookup.

Fixpoint _walk (node : pyval) : result pyval :=
  match node with
  | PDict d =>
      from_artifacts <-
        match dict_get d "artifacts" with
        | Some arts =>
            items <- py_iter arts ;;
            first_text_of (map _artifact_text items)
        | None => ret PNone
        end ;;
      if truthy from_artifacts then ret from_artifacts else
      from_artifact <-
        match dict_get d "artifact" with
        | Some art => _artifact_text art
        | None => ret PNone
        end ;;
      if truthy from_artifact then ret from_artifact else
      from_status <-
        with_entry "status" (ret PNone)
          (fun st =>
             match st with
             | PDict sd =>
                 with_entry "message" (ret PNone)
                   (fun msg =>
                      match msg with
                      | PDict _ => _walk msg
                      | _ => ret PNone
                      end)
                   sd
             | _ => ret PNone
             end)
          d ;;
      if truthy from_status then ret from_status else
      first_text_of (map (fun kv => _walk (snd kv)) d)
  | PList l => first_text_of (map _walk l)
  | _ => ret PNone
  end.

(** [_extract_text] on an event that is a dictionary, which
    [_normalise] leaves as it is. *)
Definition _extract_text (ev : event) : result pyval := _walk (PDict ev).

(** [_collect_stream] over the events of a stream that ends with the
    exception [fin], if any; [last_event] is the loop's variable. *)
Fixpoint collect_from (last_event : option event) (evs : list event)
  (fin : option exn) : result (option event) :=
  match evs with
  | [] =>
      match fin with
      | Some e => raise e
      | None => ret last_event
      end
  | ev :: rest =>
      txt <- _extract_text ev ;;
      if truthy txt then ret (Some ev) else collect_from (Some ev) rest fin
  end.

Definition _collect_stream (evs : list event) (fin : option exn)
  : result (option event) :=
  collect_from None evs fin.

End Client.

(* ------------------------------------------------------------------ *)
(** ** Vocabulary of the specification *)

(** [sub] occurs in [s] as a run of consecutive characters. *)
Definition substring_of (sub s : string) : Prop :=
  exists before after, s = (before ++ sub ++ after)%string.

(** Every character of [s] satisfies [p]. *)
Fixpoint all_chars (p : ascii -> bool) (s : string) : bool :=
  match s with
  | EmptyString => true
  | String c r => p c && all_chars p r
  end.

(** A URL-shaped token: the scheme [http] or [https], the separator,
    and a non-empty run free of white space, quotes and angle
    brackets. *)
Definition url_shaped (t : string) : Prop :=
  exists scheme body,
    (scheme = "http" \/ scheme = "https") /\
    t = (scheme ++ "://" ++ body)%string /\
    body <> EmptyString /\
    all_chars url_char body = true.

Definition has_url_token (reply : string) : Prop :=
  exists t, url_shaped t /\ substring_of t reply.

(** A skill answers a (lower-cased) query through its id, when it has
    one, or through one of its tags. *)
Definition id_matches (q : string) (sk : AgentSkill) : Prop :=
  skill_id sk <> EmptyString /\ substring_of (lower (skill_id sk)) q.

Definition tag_matches (q : string) (sk : AgentSkill) : Prop :=
  exists tag, In tag (skill_tags sk) /\ substring_of (lower tag) q.

Definition card_matches (q : string) (c : AgentCard) : Prop :=
  exists sk, In sk (card_skills c) /\ (id_matches q sk \/ tag_matches q sk).

(** A result of the search read as the caller's loops read it: a falsy
    result counts as nothing found. *)
Definition found_text (t : pyval) : pyval := if truthy t then t else PNone.

(** The text of the first text-bearing leaf, [None] when there is no
    such leaf. *)
Definition leaf_text (node : pyval) : pyval :=
  match first_text_bearing_leaf node with
  | Some leaf => text_of leaf
  | None => PNone
  end.

(** The two tests of [_fallback_by_tags] on one skill, and their
    outcome over a card. *)
Definition skill_hits (q : string) (sk : AgentSkill) : bool :=
  (negb (String.eqb (skill_id sk) EmptyString) && str_in (lower (skill_id sk)) q)
  || existsb (fun tag => str_in (lower tag) q) (skill_tags sk).

Definition card_hits (q : string) (c : AgentCard) : bool :=
  existsb (skill_hits q) (card_skills c).

(** The refresh at the head of [stream]. *)
Definition refresh_if_stale (http_get : string -> http_result)
  (now done : Z) (self : Router) : Router :=
  if (now - last_discovery self >? DISCOVERY_INTERVAL)%Z
  then _discover http_get done self else self.

(** The worker that [stream] turns to, with the URL under which the
    store holds it; nothing when no worker is available. *)
Definition routing_target (self : Router) (stage1 query : string)
  : option (string * AgentCard) :=
  let helper_url := resolve self stage1 query in
  if no_target self helper_url then None
  else match dict_get (cards self) helper_url with
       | Some card => Some (helper_url, card)
       | None => None
       end.

(** What [stream] yields when no worker is available. *)
Definition no_helper_stream : generator event :=
  {| yielded := [progress true no_helper_text]; ending := None |}.

(** What [stream] yields once it has settled on [card]. *)
Definition helper_relay (create_client : AgentCard -> result (string -> helper_stream))
  (card : AgentCard) (query : string) : generator event :=
  match create_client card with
  | inl e => {| yielded := []; ending := Some e |}
  | inr send_message =>
      {| yielded :=
           progress false (asking_text (card_name card))
           :: hs_events (send_message query);
         ending :=
           match hs_end (send_message query) with
           | StreamFailed e => Some e
           | Exhausted | TransportClosed => None
           end |}
  end.

(** The text message that the executor builds for [text]. *)
Definition agent_text (text : string) (task : Task) : pyval :=
  PDict [ ("role", PStr "agent");
          ("parts", PList [PDict [ ("kind", PStr "text");
                                   ("text", PStr text) ]]);
          ("context_id", PStr (context_id task));
          ("task_id", PStr (task_id task)) ].

(** The status updates that the executor builds on its own account. *)
Definition working_update (text : string) (task : Task) : queue_event :=
  TaskStatusUpdateEvent (task_id task) (context_id task)
    {| state := working; status_message := Some (agent_text text task) |} false.

Definition completed_update (text : string) (task : Task) : queue_event :=
  TaskStatusUpdateEvent (task_id task) (context_id task)
    {| state := completed; status_message := Some (agent_text text task) |} true.

(** The artifact event that the executor builds for a completion flag
    with content [text]. *)
Definition answer_update (text : string) (task : Task) : queue_event :=
  TaskArtifactUpdateEvent (task_id task) (context_id task)
    (PDict [ ("name", PStr "answer");
             ("description", PStr "Final answer from downstream agent");
             ("parts", PList [PDict [ ("kind", PStr "text");
                                      ("text", PStr text) ]]) ])
    false true.

(** The task that [execute] works on, and the event that announces it
    when it is new. *)
Definition orch_task_of (new_task : Message -> Task) (ctx : RequestContext)
  (m : Message) : Task :=
  match current_task ctx with
  | Some t => t
  | None => new_task m
  end.

Definition task_created (new_task : Message -> Task) (ctx : RequestContext)
  (m : Message) : list queue_event :=
  match current_task ctx with
  | None => [TaskEvent (new_task m)]
  | Some _ => []
  end.

(** An artifact-bearing event, a status-update envelope, and an event
    with the completion flag set, as [relay_step] tells them apart. *)
Definition artifact_bearing (ev : event) : bool :=
  dict_has ev "artifact" || dict_has ev "artifacts".

Definition status_envelope (ev : event) : bool :=
  eq_str (py_get ev "kind") "task" && dict_has ev "status".

Definition completion_flagged (ev : event) : bool :=
  truthy (py_get ev "is_task_complete").

(** One step of the dictionary comprehension of [_discover]. *)
Definition put_card (d : dict AgentCard) (c : AgentCard) : dict AgentCard :=
  dict_set d (card_url c) c.

(** A descriptor under the URL it advertises. *)
Definition entry_of (c : AgentCard) : string * AgentCard := (card_url c, c).


(** An event that [relay_step] can answer with the terminal pair. *)
Definition terminal_shaped (ev : event) : bool :=
  artifact_bearing ev || completion_flagged ev.

(** A status-update envelope without artifacts whose status the model
    accepts. *)
Definition valid_envelope (TaskStatus_model_validate : pyval -> option TaskStatus)
  (ev : event) : Prop :=
  artifact_bearing ev = false /\
  eq_str (py_get ev "kind") "task" = true /\
  exists s st, dict_get ev "status" = Some s /\
               TaskStatus_model_validate s = Some st.

(** The first and the last character of a string. *)
Definition first_char (s : string) : option ascii :=
  match s with
  | EmptyString => None
  | String c _ => Some c
  end.

Fixpoint last_char (s : string) : option ascii :=
  match s with
  | EmptyString => None
  | String c r =>
      match last_char r with
      | Some d => Some d
      | None => Some c
      end
  end.

(** White space and commas only. *)
Definition blank_or_comma (c : ascii) : bool :=
  is_space c || Ascii.eqb c comma.

(** The texts of the progress notes that the time agent yields for the
    streamed states. *)
Definition note_text (msg : TimeAgent.graph_message) : list string :=
  match msg with
  | TimeAgent.AIMessage (_ :: _) => ["Fetching the local time…"]
  | TimeAgent.AIMessage [] => []
  | TimeAgent.ToolMessage => ["Formatting the result…"]
  | TimeAgent.OtherMessage => []
  end.

(** The artifact event that a helper's executor builds for an answer. *)
Definition result_update (name description text : string) (task : Task)
  : queue_event :=
  TaskArtifactUpdateEvent (task_id task) (context_id task)
    (PDict [ ("name", PStr name);
             ("description", PStr description);
             ("parts", PList [PDict [ ("kind", PStr "text");
                                      ("text", PStr text) ]]) ])
    false true.

(** The final status updates of the helpers' executors: completed
    without a message, and input required with one. *)
Definition done_update (task : Task) : queue_event :=
  TaskStatusUpdateEvent (task_id task) (context_id task)
    {| state := completed; status_message := None |} true.

Definition input_update (text : string) (task : Task) : queue_event :=
  TaskStatusUpdateEvent (task_id task) (context_id task)
    {| state := input_required;
       status_message := Some (agent_text text task) |} true.

(** A step dictionary with its three keys and a string as content. *)
Definition well_formed_step (step : event) : Prop :=
  (exists complete, dict_get step "is_task_complete" = Some complete) /\
  (exists need_input, dict_get step "require_user_input" = Some need_input) /\
  (exists text, dict_get step "content" = Some (PStr text)).

(** A step with one of its two flags set. *)
Definition flagged (step : event) : bool :=
  truthy (py_get step "is_task_complete")
  || truthy (py_get step "require_user_input").

(** A structure that has the key artifact or artifacts nowhere. *)
Fixpoint artifact_free (node : pyval) : bool :=
  match node with
  | PDict d =>
      negb (dict_has d "artifact") && negb (dict_has d "artifacts")
      && forallb (fun kv => artifact_free (snd kv)) d
  | PList l => forallb artifact_free l
  | _ => true
  end.

(** An event in which the client finds text, and one in which it finds
    none. *)
Definition shows_text (ev : event) : Prop :=
  exists txt, Client._extract_text ev = inr txt /\ truthy txt = true.

Definition shows_nothing (ev : event) : Prop :=
  exists txt, Client._extract_text ev = inr txt /\ truthy txt = false.

(** A terminal event: a status update marked final. *)
Definition is_terminal (e : queue_event) : bool :=
  match e with
  | TaskStatusUpdateEvent _ _ _ final => final
  | _ => false
  end.

Definition terminal_count (out : list queue_event) : nat :=
  List.length (filter is_terminal out).

(** The descriptors a refresh obtains, in the order of the candidates. *)
Definition fetched (http_get : string -> http_result) (peers : list string)
  : list AgentCard :=
  flat_map
    (fun u => match _fetch_card http_get u with
              | Some c => [c]
              | None => []
              end)
    peers.

(** The last descriptor of a list that advertises the URL [u]. *)
Definition last_with_url (u : string) (cs : list AgentCard) : option AgentCard :=
  find (fun c => String.eqb u (card_url c)) (rev cs).

(* ------------------------------------------------------------------ *)
(** ** Concrete scenarios *)

Module Scenario.

(** Stand-ins for the protocol library's models, enough to run the
    executor on examples: any dictionary is taken as an artifact, and a
    status is read from its state name. *)
Definition artifact_model (a : pyval) : option pyval :=
  match a with
  | PDict _ => Some a
  | _ => None
  end.

Definition state_named (s : string) : option TaskState :=
  if String.eqb s "submitted" then Some submitted
  else if String.eqb s "working" then Some working
  else if String.eqb s "input-required" then Some input_required
  else if String.eqb s "completed" then Some completed
  else if String.eqb s "canceled" then Some canceled
  else if String.eqb s "failed" then Some failed
  else if String.eqb s "rejected" then Some rejected
  else if String.eqb s "auth-required" then Some auth_required
  else if String.eqb s "unknown" then Some unknown
  else None.

Definition status_model (v : pyval) : option TaskStatus :=
  match v with
  | PDict d =>
      match py_get d "state" with
      | PStr s =>
          match state_named s with
          | Some st => Some {| state := st; status_message := dict_get d "message" |}
          | None => None
          end
      | _ => None
      end
  | _ => None
  end.

Definition task1 : Task := {| task_id := "task-1"; context_id := "ctx-1" |}.

Definition new_task (m : Message) : Task := task1.

(** The two helper agents of the repository. *)
Definition time_card : AgentCard :=
  {| card_url := "http://localhost:10000/";
     card_name := "Find Time Agent";
     card_description := "Tells the current system time.";
     card_skills :=
       [ {| skill_id := "tell_time";
            skill_name := "Get Current Time";
            skill_description := "Tells the current system time in HH:MM:SS format.";
            skill_tags := ["time"; "clock"];
            skill_examples := ["What time is it?"; "Tell me the current time."] |} ] |}.

Definition greet_card : AgentCard :=
  {| card_url := "http://localhost:10001/";
     card_name := "Greeting Agent";
     card_description := "Greets the user with a random inspirational quote.";
     card_skills :=
       [ {| skill_id := "greet_with_quote";
            skill_name := "Greet with Quote";
            skill_description := "Returns a friendly greeting plus an inspirational quote.";
            skill_tags := ["greeting"; "quote"];
            skill_examples := ["Hello!"; "Say hi"; "Greet me"] |} ] |}.

Definition text_part (s : string) : pyval :=
  PDict [("kind", PStr "text"); ("metadata", PNone); ("text", PStr s)].

(** An artifact whose first part is an empty text and whose second part
    holds the answer. *)
Definition answer_artifact : pyval :=
  PDict [ ("artifact_id", PStr "a-1");
          ("description", PNone);
          ("metadata", PNone);
          ("name", PStr "current_result");
          ("parts", PList [ text_part EmptyString;
                            text_part "It is 10:00:00 in Asia/Tokyo." ]) ].

(** An artifact with a data part only. *)
Definition data_artifact : pyval :=
  PDict [ ("artifact_id", PStr "a-2");
          ("name", PStr "numbers");
          ("parts", PList [ PDict [ ("data", PDict [("n", PInt 3)]);
                                    ("kind", PStr "data") ] ]) ].

Definition artifact_event (a : pyval) : event :=
  [ ("append", PBool false); ("artifact", a); ("kind", PStr "artifact-update") ].

Definition two_workers : Router :=
  {| peer_urls := ["http://localhost:10000"; "http://localhost:10001"];
     cards := [ ("http://localhost:10000/", time_card);
                ("http://localhost:10001/", greet_card) ];
     last_discovery := 0 |}.

(** A reply that names the sentinel and a URL. *)
Definition hedging_reply : string :=
  "NONE of them is certain, the closest is http://localhost:10001/ (greeting).".

Definition hedging_oracle (listed : list AgentCard) (question : string)
  : result string :=
  ret hedging_reply.

(** A card whose only skill has an empty id and no tags. *)
Definition blank_card : AgentCard :=
  {| card_url := "http://localhost:10002/";
     card_name := "Blank Agent";
     card_description := "Advertises a skill without id or tags.";
     card_skills :=
       [ {| skill_id := EmptyString;
            skill_name := "Unnamed";
            skill_description := EmptyString;
            skill_tags := [];
            skill_examples := [] |} ] |}.

Definition blank_router : Router :=
  {| peer_urls := ["http://localhost:10002"];
     cards := [ ("http://localhost:10002/", blank_card) ];
     last_discovery := 0 |}.

(** A task snapshot as a helper's client yields it once the helper has
    produced its artifact: kind task, a status, and the artifacts. *)
Definition task_snapshot : event :=
  [ ("artifacts", PList [answer_artifact]);
    ("context_id", PStr "helper-ctx");
    ("id", PStr "helper-task");
    ("kind", PStr "task");
    ("status", PDict [("state", PStr "working")]) ].

(** A status-update envelope whose status is marked completed. *)
Definition finished_envelope : event :=
  [ ("context_id", PStr "helper-ctx");
    ("id", PStr "helper-task");
    ("kind", PStr "task");
    ("status", PDict [("state", PStr "completed")]) ].

(** An orchestrator that has found no helper, an oracle that answers
    with the sentinel, and a network on which nothing answers. *)
Definition lonely_router : Router :=
  {| peer_urls := ["http://localhost:10000"];
     cards := [];
     last_discovery := 0 |}.

Definition silent_network (url : string) : http_result := RequestFailed.

Definition none_oracle (listed : list AgentCard) (question : string)
  : result string :=
  ret "NONE".

Definition no_client (card : AgentCard) : result (string -> helper_stream) :=
  raise (RuntimeFailure "no compatible transport").

(** The time agent's stream for a query: one progress note, then the
    answer under the completion flag. *)
Definition time_client (card : AgentCard) : result (string -> helper_stream) :=
  ret (fun query =>
         {| hs_events := [ progress false "thinking";
                           progress true "It is 10:00:00 in Asia/Tokyo." ];
            hs_end := Exhausted |}).

Definition time_question : Message := {| user_input := "what time is it in tokyo" |}.

Definition first_request : RequestContext :=
  {| message := Some time_question; current_task := None |}.

Definition follow_up_request : RequestContext :=
  {| message := Some time_question; current_task := Some task1 |}.

Definition empty_request : RequestContext :=
  {| message := None; current_task := None |}.

Definition time_oracle (listed : list AgentCard) (question : string)
  : result string :=
  ret "http://localhost:10000/".

(** A helper stream with several terminal-shaped events. *)
Definition insistent_events : list event :=
  [ progress false "thinking";
    progress true "It is 10:00:00 in Asia/Tokyo.";
    progress true "It is 10:00:01 in Asia/Tokyo.";
    task_snapshot ].

(** Three candidates, of which the third does not answer; the store
    still holds a worker from an earlier refresh. *)
Definition partial_network (url : string) : http_result :=
  if String.eqb url "http://localhost:10000/.well-known/agent-card.json"
  then CardReceived time_card
  else if String.eqb url "http://localhost:10001/.well-known/agent-card.json"
  then CardReceived greet_card
  else RequestFailed.

Definition stale_router : Router :=
  {| peer_urls := [ "http://localhost:10000"; "http://localhost:10001";
                    "http://localhost:10002" ];
     cards := [ ("http://localhost:10002/", blank_card) ];
     last_discovery := 0 |}.

(** Two candidates whose cards advertise one and the same URL. *)
Definition mirror_card : AgentCard :=
  {| card_url := "http://localhost:10000/";
     card_name := "Find Time Agent (mirror)";
     card_description := "Tells the current system time.";
     card_skills := card_skills time_card |}.

Definition mirrored_network (url : string) : http_result :=
  if String.eqb url "http://localhost:10000/.well-known/agent-card.json"
  then CardReceived time_card
  else if String.eqb url "http://127.0.0.1:10000/.well-known/agent-card.json"
  then CardReceived mirror_card
  else StatusRefused 404.

Definition mirrored_router : Router :=
  {| peer_urls := [ "http://localhost:10000"; "http://127.0.0.1:10000" ];
     cards := [];
     last_discovery := 0 |}.

(** A reply that ends its URL with a full stop. *)
Definition punctuated_reply : string :=
  "Ask the agent at http://localhost:10000/. It knows the time.".

(** A helper's message, which has neither artifact nor status nor
    content. *)
Definition helper_message : event :=
  [ ("kind", PStr "message");
    ("message_id", PStr "m-1");
    ("parts", PList [text_part "Working on it"]);
    ("role", PStr "agent") ].

(** A task snapshot whose list of artifacts is empty. *)
Definition bare_snapshot : event :=
  [ ("artifacts", PList []);
    ("id", PStr "helper-task");
    ("kind", PStr "task");
    ("status", PDict [("state", PStr "working")]) ].

(** A task snapshot without artifacts. *)
Definition working_envelope : event :=
  [ ("context_id", PStr "helper-ctx");
    ("id", PStr "helper-task");
    ("kind", PStr "task");
    ("status", PDict [("state", PStr "working")]) ].

(** A helper whose stream breaks after two status envelopes. *)
Definition breaking_client (card : AgentCard) : result (string -> helper_stream) :=
  ret (fun query =>
         {| hs_events := [working_envelope; finished_envelope];
            hs_end := TransportClosed |}).

(** A run of the time agent's graph that calls the tool once and ends
    with a completed answer, and one that ends with an error status. *)
Definition tokyo_run : TimeAgent.graph_run :=
  {| TimeAgent.last_messages :=
       [ TimeAgent.OtherMessage;
         TimeAgent.AIMessage ["get_time"];
         TimeAgent.ToolMessage;
         TimeAgent.AIMessage [] ];
     TimeAgent.failure := None;
     TimeAgent.structured_response :=
       Some {| TimeAgent.status := TimeAgent.status_completed;
               TimeAgent.response_message := "It is 10:00:00 in Asia/Tokyo." |} |}.

Definition error_run : TimeAgent.graph_run :=
  {| TimeAgent.last_messages := [TimeAgent.OtherMessage];
     TimeAgent.failure := None;
     TimeAgent.structured_response :=
       Some {| TimeAgent.status := TimeAgent.status_error;
               TimeAgent.response_message := "The time service failed." |} |}.

(** Steps with two completion flags and a request for input. *)
Definition repeated_steps : list event :=
  [ step_dict false false "thinking";
    step_dict true false "It is 10:00:00 in Asia/Tokyo.";
    step_dict false true "Which city?";
    step_dict true false "It is 10:00:01 in Asia/Tokyo." ].

Definition greeting_model (query : string) : result string :=
  ret "  Hello there!
".

Definition failing_model (query : string) : result string :=
  raise (RuntimeFailure "model unavailable").

(** A final status update as the client receives it, with the answer
    in the status message. *)
Definition status_update_dump : event :=
  [ ("context_id", PStr "ctx-1");
    ("final", PBool true);
    ("kind", PStr "status-update");
    ("status",
     PDict [ ("message",
              PDict [ ("kind", PStr "message");
                      ("parts", PList [text_part "It is 10:00:00 in Asia/Tokyo."]);
                      ("role", PStr "agent") ]);
             ("state", PStr "completed") ]);
    ("task_id", PStr "task-1") ].

Definition greeting_update_dump : event :=
  [ ("artifact",
     PDict [ ("description", PStr "Greeting with quote");
             ("name", PStr "greeting");
             ("parts", PList [text_part "Hello there!"]) ]);
    ("context_id", PStr "ctx-1");
    ("kind", PStr "artifact-update");
    ("task_id", PStr "task-1") ].

End Scenario.

(** * Properties *)

(* ------------------------------------------------------------------ *)
(** ** Dictionaries and lists *)

Lemma find_app_first {A} (p : A -> bool) (l1 l2 : list A) :
  find p (l1 ++ l2) =
  match find p l1 with
  | Some x => Some x
  | None => find p l2
  end.
Proof.
  induction l1 as [|a l1 IH]; simpl; [reflexivity|].
  destruct (p a); [reflexivity | exact IH].
Qed.

Lemma dict_has_get {V} (d : dict V) k :
  dict_has d k = true <-> exists v, dict_get d k = Some v.
Proof.
  unfold dict_has. destruct (dict_get d k) as [v|].
  - split; [eauto | reflexivity].
  - split; [discriminate | intros [v H]; discriminate].
Qed.

(* ------------------------------------------------------------------ *)
(** ** [_first_text] *)

Lemma first_text_list (l : list pyval) :
  _first_text (PList l) = first_truthy (map _first_text l).
Proof.
  simpl. induction l as [|x l IH]; simpl; [reflexivity|].
  destruct (truthy (_first_text x)); [reflexivity | exact IH].
Qed.

Lemma first_text_dict (d : list (string * pyval)) :
  eq_str (py_get d "kind") "text" = false ->
  _first_text (PDict d) = first_truthy (map (fun kv => _first_text (snd kv)) d).
Proof.
  intros Hk. simpl. rewrite Hk.
  induction d as [|[k v] r IH] in |- *; simpl; [reflexivity|].
  destruct (truthy (_first_text v)); [reflexivity | exact IH].
Qed.

Lemma first_truthy_found (l : list pyval) :
  found_text (first_truthy l) = first_truthy l.
Proof.
  induction l as [|t l IH]; simpl; [reflexivity|].
  destruct (truthy t) eqn:Ht; [|exact IH].
  unfold found_text. now rewrite Ht.
Qed.

Lemma first_truthy_leaves {A} (f : A -> pyval) (g : A -> list pyval) (l : list A) :
  Forall (fun x => found_text (f x) =
                   match find text_bearing (g x) with
                   | Some leaf => text_of leaf
                   | None => PNone
                   end) l ->
  first_truthy (map f l) =
  match find text_bearing (flat_map g l) with
  | Some leaf => text_of leaf
  | None => PNone
  end.
Proof.
  induction 1 as [|x l Hx _ IH]; simpl; [reflexivity|].
  rewrite find_app_first. unfold found_text in Hx.
  destruct (find text_bearing (g x)) as [leaf|] eqn:Hf.
  - apply find_some in Hf. destruct Hf as [_ Hb]. unfold text_bearing in Hb.
    destruct (truthy (f x)) eqn:Ht; [exact Hx|].
    rewrite <- Hx in Hb. discriminate.
  - destruct (truthy (f x)) eqn:Ht; [|exact IH].
    rewrite Hx in Ht. discriminate.
Qed.

Lemma first_text_leaf_text (node : pyval) :
  found_text (_first_text node) = leaf_text node.
Proof.
  unfold leaf_text, first_text_bearing_leaf.
  induction node as [| b | z | s | l IH | d IH] using pyval_ind;
    try reflexivity.
  - rewrite first_text_list, first_truthy_found.
    change (text_leaves (PList l)) with (flat_map text_leaves l).
    now apply first_truthy_leaves.
  - destruct (eq_str (py_get d "kind") "text") eqn:Hk.
    + simpl. rewrite Hk. simpl. unfold text_bearing, found_text. simpl.
      destruct (truthy (py_get d "text")); reflexivity.
    + rewrite (first_text_dict d Hk), first_truthy_found.
      simpl text_leaves. rewrite Hk.
      now apply (first_truthy_leaves (fun kv => _first_text (snd kv))
                   (fun kv => text_leaves (snd kv))).
Qed.

Lemma first_text_not_text_node (node : pyval) :
  is_text_node node = false ->
  found_text (_first_text node) = _first_text node.
Proof.
  destruct node as [| b | z | s | l | d]; intros Hn; try reflexivity.
  - rewrite first_text_list. apply first_truthy_found.
  - simpl in Hn. rewrite (first_text_dict d Hn). apply first_truthy_found.
Qed.

Section RelayProperties.
Variable artifact_model : pyval -> option pyval.
Variable TaskStatus_model_validate : pyval -> option TaskStatus.

Local Abbreviation make_artifact_event := (_make_artifact_event artifact_model).
Local Abbreviation step := (relay_step artifact_model TaskStatus_model_validate).
Local Abbreviation loop := (relay_loop artifact_model TaskStatus_model_validate).

Lemma make_artifact_event_shape ev task artev :
  make_artifact_event ev task = inr artev ->
  exists a, artev = TaskArtifactUpdateEvent (task_id task) (context_id task) a false true.
Proof.
  unfold _make_artifact_event, bind.
  destruct (match dict_get ev "artifact" with
            | Some a => ret a
            | None => match dict_get ev "artifacts" with
                      | Some l => subscript0 l
                      | None => raise KeyError
                      end
            end) as [e|art]; [discriminate|].
  destruct (artifact_model art) as [a|]; [|discriminate].
  intros [= <-]. now exists a.
Qed.

(** C7.  The text that the relay takes from an artifact for the final
    completed message is the text of the first text-bearing leaf met
    in a depth-first walk of the artifact's dump, the leaves being the
    nodes of kind text and a leaf bearing text when its text is not
    empty; when there is no such leaf no text is found.  For
    [_first_text] on any nested structure: with a first text-bearing
    leaf the result is that leaf's text; without one the result is
    falsy, and is [None] unless the structure is itself a node of kind
    text.  For the relay: an artifact-bearing event whose artifact has
    a first text-bearing leaf with string text [s] puts the artifact
    event and then the final completed status with message [s] on the
    queue and leaves the loop; one whose artifact has no such leaf
    gets no completed message. *)
Theorem C7_first_text_depth_first :
  forall node : pyval,
    (forall leaf, first_text_bearing_leaf node = Some leaf ->
                  _first_text node = text_of leaf) /\
    (first_text_bearing_leaf node = None ->
     truthy (_first_text node) = false /\
     (is_text_node node = false -> _first_text node = PNone)) /\
    (forall task ev artev,
        dict_has ev "artifact" || dict_has ev "artifacts" = true ->
        make_artifact_event ev task = inr artev ->
        artifact_of artev = node ->
        (forall leaf s msg,
            first_text_bearing_leaf node = Some leaf ->
            text_of leaf = PStr s ->
            new_agent_text_message (PStr s) (context_id task) (task_id task)
              = inr msg ->
            step task ev =
            ([artev;
              TaskStatusUpdateEvent (task_id task) (context_id task)
                {| state := completed; status_message := Some msg |} true],
             Stop)) /\
        (first_text_bearing_leaf node = None ->
         is_text_node node = false ->
         step task ev = ([artev], Throw ValidationError))).
Proof.
  intros node.
  pose proof (first_text_leaf_text node) as Hleaf.
  unfold leaf_text in Hleaf.
  assert (Hsome : forall leaf, first_text_bearing_leaf node = Some leaf ->
                               _first_text node = text_of leaf).
  { intros leaf Hf. rewrite Hf in Hleaf.
    pose proof Hf as Hb. unfold first_text_bearing_leaf in Hb.
    apply find_some in Hb. destruct Hb as [_ Hb]. unfold text_bearing in Hb.
    unfold found_text in Hleaf.
    destruct (truthy (_first_text node)) eqn:Ht; [exact Hleaf|].
    rewrite <- Hleaf in Hb. discriminate. }
  assert (Hnone : first_text_bearing_leaf node = None ->
                  truthy (_first_text node) = false /\
                  (is_text_node node = false -> _first_text node = PNone)).
  { intros Hf. rewrite Hf in Hleaf. unfold found_text in Hleaf.
    destruct (truthy (_first_text node)) eqn:Ht.
    - rewrite Hleaf in Ht. discriminate.
    - split; [reflexivity|]. intros Hn.
      rewrite <- (first_text_not_text_node node Hn).
      unfold found_text. now rewrite Ht. }
  split; [exact Hsome|]. split; [exact Hnone|].
  intros task ev artev Hart Hmk Hnode. split.
  - intros leaf s msg Hf Hs Hmsg.
    unfold relay_step. rewrite Hart, Hmk, Hnode, (Hsome leaf Hf), Hs.
    unfold _enqueue_completed, bind. now rewrite Hmsg.
  - intros Hf Hn. destruct (Hnone Hf) as [_ Hpn].
    unfold relay_step. rewrite Hart, Hmk, Hnode, (Hpn Hn). reflexivity.
Qed.

End RelayProperties.

Lemma C7_first_text_depth_first_witness :
  _first_text Scenario.answer_artifact = PStr "It is 10:00:00 in Asia/Tokyo." /\
  relay_step Scenario.artifact_model Scenario.status_model Scenario.task1
    (Scenario.artifact_event Scenario.answer_artifact) =
  ([ TaskArtifactUpdateEvent "task-1" "ctx-1" Scenario.answer_artifact false true;
     TaskStatusUpdateEvent "task-1" "ctx-1"
       {| state := completed;
          status_message :=
            Some (PDict [ ("role", PStr "agent");
                          ("parts", PList [PDict [ ("kind", PStr "text");
                                                   ("text", PStr "It is 10:00:00 in Asia/Tokyo.") ]]);
                          ("context_id", PStr "ctx-1");
                          ("task_id", PStr "task-1") ]) |} true ],
   Stop) /\
  _first_text Scenario.data_artifact = PNone /\
  relay_step Scenario.artifact_model Scenario.status_model Scenario.task1
    (Scenario.artifact_event Scenario.data_artifact) =
  ([ TaskArtifactUpdateEvent "task-1" "ctx-1" Scenario.data_artifact false true ],
   Throw ValidationError).
Proof.
  pose proof (C7_first_text_depth_first Scenario.artifact_model Scenario.status_model
                Scenario.answer_artifact) as [Hsome [_ Hrelay]].
  pose proof (C7_first_text_depth_first Scenario.artifact_model Scenario.status_model
                Scenario.data_artifact) as [_ [Hnone Hrelay']].
  split; [|split; [|split]].
  - apply (Hsome (Scenario.text_part "It is 10:00:00 in Asia/Tokyo.")). reflexivity.
  - refine (proj1 (Hrelay Scenario.task1 _ _ _ _ _)
              (Scenario.text_part "It is 10:00:00 in Asia/Tokyo.") _ _ _ _ _);
      reflexivity.
  - apply Hnone; reflexivity.
  - refine (proj2 (Hrelay' Scenario.task1 _ _ _ _ _) _ _); reflexivity.
Defined.

(* ------------------------------------------------------------------ *)
(** ** Strings *)

Lemma append_assoc_s (a b c : string) :
  ((a ++ b) ++ c = a ++ (b ++ c))%string.
Proof.
  induction a as [|x a IH]; simpl; [reflexivity | now rewrite IH].
Qed.

Lemma prefix_app (a s : string) :
  String.prefix a s = true <-> exists r, s = (a ++ r)%string.
Proof.
  revert s. induction a as [|x a IH]; intros s.
  - destruct s; simpl; split; eauto.
  - destruct s as [|y s]; simpl.
    + split; [discriminate | intros [r H]; discriminate].
    + destruct (ascii_dec x y) as [->|Hne].
      * rewrite IH. split; intros [r H]; exists r; congruence.
      * split; [discriminate | intros [r [= H _]]; congruence].
Qed.

Lemma str_in_eq (sub s : string) :
  str_in sub s =
  String.prefix sub s
  || match s with
     | EmptyString => false
     | String _ r => str_in sub r
     end.
Proof.
  destruct s; cbn [str_in]; destruct (String.prefix sub _); reflexivity.
Qed.

Lemma str_in_sound (sub s : string) :
  str_in sub s = true -> substring_of sub s.
Proof.
  induction s as [|c s IH]; rewrite str_in_eq; intros H;
    apply orb_prop in H; destruct H as [Hp | H]; try discriminate.
  - apply prefix_app in Hp. destruct Hp as [r Hr].
    exists EmptyString, r. exact Hr.
  - apply prefix_app in Hp. destruct Hp as [r Hr].
    exists EmptyString, r. exact Hr.
  - destruct (IH H) as [before [after Hs]].
    exists (String c before), after. simpl. now rewrite Hs.
Qed.

Lemma str_in_complete (sub before after : string) :
  str_in sub (before ++ sub ++ after)%string = true.
Proof.
  induction before as [|c before IH]; rewrite str_in_eq.
  - apply orb_true_intro. left. apply prefix_app. simpl. eauto.
  - apply orb_true_intro. right. exact IH.
Qed.

Lemma str_in_spec (sub s : string) :
  str_in sub s = true <-> substring_of sub s.
Proof.
  split; [apply str_in_sound|].
  intros [before [after ->]]. apply str_in_complete.
Qed.

Lemma strip_prefix_spec (p s r : string) :
  strip_prefix p s = Some r <-> s = (p ++ r)%string.
Proof.
  revert s. induction p as [|a p IH]; intros s; simpl.
  - split; [intros [= ->]; reflexivity | intros ->; reflexivity].
  - destruct s as [|b s]; [split; discriminate|].
    destruct (Ascii.eqb_spec a b) as [->|Hne].
    + rewrite IH. split; [intros ->; reflexivity | intros [= ->]; reflexivity].
    + split; [discriminate | intros [= H _]; congruence].
Qed.

Lemma take_while_all (p : ascii -> bool) (s : string) :
  all_chars p (take_while p s) = true.
Proof.
  induction s as [|c s IH]; simpl; [reflexivity|].
  destruct (p c) eqn:Hc; simpl; [now rewrite Hc | reflexivity].
Qed.

Lemma take_while_prefix (p : ascii -> bool) (s : string) :
  exists rest, s = (take_while p s ++ rest)%string.
Proof.
  induction s as [|c s [rest IH]]; simpl.
  - now exists EmptyString.
  - destruct (p c).
    + exists rest. simpl. now rewrite <- IH.
    + now exists (String c s).
Qed.

(** ** The URL pattern *)

Lemma match_tail_sound (s body : string) :
  match_tail s = Some body ->
  body <> EmptyString /\ all_chars url_char body = true /\
  exists rest, s = ("://" ++ body ++ rest)%string.
Proof.
  unfold match_tail. destruct (strip_prefix "://" s) as [r|] eqn:Hr; [|discriminate].
  apply strip_prefix_spec in Hr.
  pose proof (take_while_all url_char r) as Hall.
  destruct (take_while_prefix url_char r) as [rest Hrest].
  destruct (take_while url_char r) as [|c b] eqn:Htw; [discriminate|].
  intros [= <-]. split; [discriminate|]. split; [exact Hall|].
  exists rest. now rewrite Hr, Hrest.
Qed.

Lemma match_tail_complete (body rest : string) :
  body <> EmptyString -> all_chars url_char body = true ->
  match_tail ("://" ++ body ++ rest)%string <> None.
Proof.
  intros Hne Hall. unfold match_tail.
  assert (Hs : strip_prefix "://" ("://" ++ body ++ rest)%string
               = Some (body ++ rest)%string)
    by (now apply strip_prefix_spec).
  rewrite Hs. destruct body as [|c b]; [contradiction|].
  simpl in Hall. apply andb_prop in Hall. destruct Hall as [Hc _].
  simpl. rewrite Hc. discriminate.
Qed.

Lemma match_here_sound (s m : string) :
  match_here s = Some m ->
  url_shaped m /\ exists rest, s = (m ++ rest)%string.
Proof.
  unfold match_here.
  destruct (strip_prefix "http" s) as [r|] eqn:Hr; [|discriminate].
  apply strip_prefix_spec in Hr.
  destruct (match strip_prefix "s" r with
            | Some r' => match_tail r'
            | None => None
            end) as [body|] eqn:Hs.
  - intros [= <-].
    destruct (strip_prefix "s" r) as [r'|] eqn:Hr'; [|discriminate].
    apply strip_prefix_spec in Hr'.
    apply match_tail_sound in Hs. destruct Hs as [Hne [Hall [rest Hrest]]].
    split.
    + exists "https", body. repeat split; auto.
    + exists rest. rewrite Hr, Hr', Hrest. reflexivity.
  - destruct (match_tail r) as [body|] eqn:Ht; [|discriminate].
    intros [= <-].
    apply match_tail_sound in Ht. destruct Ht as [Hne [Hall [rest Hrest]]].
    split.
    + exists "http", body. repeat split; auto.
    + exists rest. rewrite Hr, Hrest. reflexivity.
Qed.

Lemma match_here_complete (t rest : string) :
  url_shaped t -> match_here (t ++ rest)%string <> None.
Proof.
  intros [scheme [body [Hscheme [-> [Hne Hall]]]]].
  pose proof (match_tail_complete rest Hne Hall) as Htail.
  rewrite !append_assoc_s.
  set (tail := ("://" ++ body ++ rest)%string) in *.
  destruct Hscheme as [-> | ->]; unfold match_here.
  - rewrite (proj2 (strip_prefix_spec "http" ("http" ++ tail) tail) eq_refl).
    change (strip_prefix "s" tail) with (@None string).
    destruct (match_tail tail) as [b|]; [discriminate | contradiction].
  - rewrite (proj2 (strip_prefix_spec "http" ("https" ++ tail) ("s" ++ tail))
               eq_refl).
    rewrite (proj2 (strip_prefix_spec "s" ("s" ++ tail) tail) eq_refl).
    destruct (match_tail tail) as [b|]; [discriminate | contradiction].
Qed.

Lemma re_search_sound (s m : string) :
  re_search s = Some m -> url_shaped m /\ substring_of m s.
Proof.
  induction s as [|c s IH]; cbn [re_search].
  - discriminate.
  - destruct (match_here (String c s)) as [m'|] eqn:Hm.
    + intros [= <-]. apply match_here_sound in Hm. destruct Hm as [Hu [rest Hrest]].
      split; [exact Hu|]. exists EmptyString, rest. exact Hrest.
    + intros H. destruct (IH H) as [Hu [before [after Hs]]].
      split; [exact Hu|]. exists (String c before), after. simpl. now rewrite Hs.
Qed.

Lemma re_search_complete (s : string) :
  has_url_token s -> re_search s <> None.
Proof.
  intros [t [Hu [before [after ->]]]].
  induction before as [|c before IH].
  - simpl append. pose proof (match_here_complete after Hu) as Hm.
    destruct (t ++ after)%string eqn:E; cbn [re_search];
      destruct (match_here _); try discriminate; contradiction.
  - simpl append. cbn [re_search].
    destruct (match_here (String c (before ++ t ++ after)));
      [discriminate | exact IH].
Qed.

Lemma url_shaped_not_NONE (t : string) : url_shaped t -> t <> NONE.
Proof.
  intros [scheme [body [[-> | ->] [-> _]]]]; discriminate.
Qed.

(* ------------------------------------------------------------------ *)
(** ** Stage 1: reading the oracle's reply *)

Lemma parse_reply_none (reply : string) :
  ~ has_url_token reply -> parse_reply reply = NONE.
Proof.
  intros Hno. unfold parse_reply.
  destruct (re_search reply) as [m|] eqn:Hm; [|reflexivity].
  exfalso. apply Hno. exists m. now apply re_search_sound.
Qed.

Lemma parse_reply_url (reply : string) :
  has_url_token reply ->
  parse_reply reply <> NONE /\
  url_shaped (parse_reply reply) /\
  substring_of (parse_reply reply) reply.
Proof.
  intros Hyes. unfold parse_reply.
  destruct (re_search reply) as [m|] eqn:Hm.
  - destruct (re_search_sound _ Hm) as [Hu Hs].
    split; [now apply url_shaped_not_NONE | now split].
  - now apply re_search_complete in Hyes.
Qed.

(** C3, as the code has it.  For every reply of the oracle, stage 1
    resolves to NONE exactly when the reply contains no URL-shaped
    token; when it contains one, stage 1 resolves to a URL-shaped
    substring of the reply, found by pattern match in the free text,
    whether or not the word NONE occurs in the reply as well. *)
Theorem C3_stage1_reply_parsing :
  forall (oracle : list AgentCard -> string -> result string)
         (self : Router) (question reply : string),
    oracle (dict_values (cards self)) question = inr reply ->
    exists url,
      _choose_agent oracle self question = inr url /\
      (~ has_url_token reply -> url = NONE) /\
      (has_url_token reply ->
       url <> NONE /\ url_shaped url /\ substring_of url reply).
Proof.
  intros oracle self question reply Hreply.
  exists (parse_reply reply). split.
  - unfold _choose_agent, bind. now rewrite Hreply.
  - split; [apply parse_reply_none | apply parse_reply_url].
Qed.

Lemma C3_stage1_reply_parsing_witness :
  exists url,
    _choose_agent Scenario.hedging_oracle Scenario.two_workers
      "say hello" = inr url /\
    (~ has_url_token Scenario.hedging_reply -> url = NONE) /\
    (has_url_token Scenario.hedging_reply ->
     url <> NONE /\ url_shaped url /\ substring_of url Scenario.hedging_reply).
Proof.
  apply (C3_stage1_reply_parsing Scenario.hedging_oracle Scenario.two_workers
           "say hello" (reply := Scenario.hedging_reply)).
  reflexivity.
Defined.

(** The reply of the scenario contains the sentinel word, and yet
    stage 1 resolves to the URL that it also contains. *)
Lemma C3_sentinel_counterexample :
  str_in NONE Scenario.hedging_reply = true /\
  _choose_agent Scenario.hedging_oracle Scenario.two_workers "say hello"
    = inr "http://localhost:10001/" /\
  "http://localhost:10001/" <> NONE.
Proof.
  split; [reflexivity|]. split; [reflexivity | discriminate].
Qed.

(* ------------------------------------------------------------------ *)
(** ** Stage 2: the fallback by ids and tags *)

Lemma skill_hits_spec (q : string) (sk : AgentSkill) :
  skill_hits q sk = true <-> id_matches q sk \/ tag_matches q sk.
Proof.
  unfold skill_hits, id_matches, tag_matches.
  rewrite orb_true_iff, andb_true_iff, negb_true_iff, String.eqb_neq,
    existsb_exists, str_in_spec.
  split; intros [H | [tag [Hin Ht]]]; auto; right; exists tag;
    (split; [exact Hin | now apply str_in_spec]).
Qed.

Lemma card_hits_spec (q : string) (c : AgentCard) :
  card_hits q c = true <-> card_matches q c.
Proof.
  unfold card_hits, card_matches. rewrite existsb_exists.
  split; intros [sk [Hin H]]; exists sk; (split; [exact Hin|]);
    now apply skill_hits_spec.
Qed.

Lemma scan_skills_hits (q : string) (c : AgentCard) (sks : list AgentSkill) :
  scan_skills q c sks =
  if existsb (skill_hits q) sks then Some (card_url c) else None.
Proof.
  induction sks as [|sk sks IH]; simpl; [reflexivity|].
  unfold skill_hits at 1.
  destruct (negb (String.eqb (skill_id sk) EmptyString)
            && str_in (lower (skill_id sk)) q); simpl; [reflexivity|].
  destruct (existsb (fun tag => str_in (lower tag) q) (skill_tags sk));
    simpl; [reflexivity | exact IH].
Qed.

Lemma scan_cards_find (q : string) (cs : list AgentCard) :
  scan_cards q cs =
  match find (card_hits q) cs with
  | Some c => card_url c
  | None => NONE
  end.
Proof.
  induction cs as [|c cs IH]; simpl; [reflexivity|].
  rewrite scan_skills_hits. fold (card_hits q c).
  destruct (card_hits q c); [reflexivity | exact IH].
Qed.

Lemma find_first {A} (p : A -> bool) (before : list A) (x : A) (after : list A) :
  (forall y, In y before -> p y = false) -> p x = true ->
  find p (before ++ x :: after) = Some x.
Proof.
  intros Hb Hx. induction before as [|y before IH]; simpl.
  - now rewrite Hx.
  - rewrite (Hb y (or_introl eq_refl)). apply IH.
    intros z Hz. apply Hb. now right.
Qed.

Lemma find_none_all {A} (p : A -> bool) (l : list A) :
  (forall y, In y l -> p y = false) -> find p l = None.
Proof.
  induction l as [|y l IH]; intros H; simpl; [reflexivity|].
  rewrite (H y (or_introl eq_refl)). apply IH. intros z Hz. apply H. now right.
Qed.

Lemma card_hits_false (q : string) (c : AgentCard) :
  ~ card_matches q c -> card_hits q c = false.
Proof.
  intros H. destruct (card_hits q c) eqn:E; [|reflexivity].
  now apply card_hits_spec in E.
Qed.

(** C4, as the code has it.  For every store and query, the fallback
    returns the URL of the first descriptor, in the store's iteration
    order, that has a skill whose id is not empty and, lower-cased, is
    a substring of the lower-cased query, or one of whose tags,
    lower-cased, is a substring of the lower-cased query; it returns
    NONE when no descriptor matches, in particular on the empty store.
    On a store of two workers whose first one has the single skill
    with id tell_time and tags time and clock, the query
    what time is it in tokyo yields the first worker's URL. *)
Theorem C4_fallback_first_match :
  forall (self : Router) (query : string),
    (forall before k c after,
        cards self = before ++ (k, c) :: after ->
        (forall k' c', In (k', c') before -> ~ card_matches (lower query) c') ->
        card_matches (lower query) c ->
        _fallback_by_tags self (lower query) = card_url c) /\
    ((forall k c, In (k, c) (cards self) -> ~ card_matches (lower query) c) ->
     _fallback_by_tags self (lower query) = NONE) /\
    (cards self = [] -> _fallback_by_tags self (lower query) = NONE) /\
    (forall urlA urlB A B sk,
        cards self = [(urlA, A); (urlB, B)] ->
        card_skills A = [sk] ->
        skill_id sk = "tell_time" ->
        skill_tags sk = ["time"; "clock"] ->
        _fallback_by_tags self (lower "what time is it in tokyo") = card_url A).
Proof.
  intros self query. unfold _fallback_by_tags, dict_values.
  split; [|split; [|split]].
  - intros before k c after Hcards Hbefore Hc.
    rewrite scan_cards_find, Hcards, map_app. simpl map.
    rewrite (find_first (card_hits (lower query)) (map snd before) c).
    + reflexivity.
    + intros c' Hin. apply in_map_iff in Hin.
      destruct Hin as [[k' c''] [Heq Hin]]. simpl in Heq. subst c''.
      apply card_hits_false. now apply (Hbefore k').
    + now apply card_hits_spec.
  - intros Hnone. rewrite scan_cards_find, find_none_all; [reflexivity|].
    intros c Hin. apply in_map_iff in Hin.
    destruct Hin as [[k c'] [Heq Hin]]. simpl in Heq. subst c'.
    apply card_hits_false. now apply (Hnone k).
  - intros ->. reflexivity.
  - intros urlA urlB A B sk Hcards HA Hid Htags.
    rewrite Hcards. simpl. rewrite HA. simpl. rewrite Hid, Htags. reflexivity.
Qed.

Lemma C4_fallback_first_match_witness :
  _fallback_by_tags Scenario.two_workers (lower "Give me a QUOTE")
    = "http://localhost:10001/" /\
  _fallback_by_tags Scenario.two_workers (lower "What is the capital of France?")
    = NONE /\
  _fallback_by_tags Scenario.two_workers (lower "what time is it in tokyo")
    = "http://localhost:10000/".
Proof.
  split; [|split].
  - refine (proj1 (C4_fallback_first_match Scenario.two_workers "Give me a QUOTE")
              [("http://localhost:10000/", Scenario.time_card)]
              "http://localhost:10001/" Scenario.greet_card [] eq_refl _ _).
    + intros k' c' [[= <- <-] | []] Hm.
      apply card_hits_spec in Hm. discriminate Hm.
    + apply card_hits_spec. reflexivity.
  - refine (proj1 (proj2 (C4_fallback_first_match Scenario.two_workers
                            "What is the capital of France?")) _).
    intros k c [[= <- <-] | [[= <- <-] | []]] Hm;
      apply card_hits_spec in Hm; discriminate Hm.
  - refine (proj2 (proj2 (proj2 (C4_fallback_first_match Scenario.two_workers
                                   "what time is it in tokyo")))
              _ _ Scenario.time_card Scenario.greet_card _
              eq_refl eq_refl eq_refl eq_refl).
Defined.

(** The only skill of the card has the empty id, which is a substring
    of every query, and no tag; the fallback returns NONE, not the
    card's URL. *)
Lemma C4_empty_id_counterexample :
  (exists sk, In sk (card_skills Scenario.blank_card) /\
              substring_of (lower (skill_id sk)) (lower "Hello")) /\
  cards Scenario.blank_router = [("http://localhost:10002/", Scenario.blank_card)] /\
  _fallback_by_tags Scenario.blank_router (lower "Hello") = NONE /\
  card_url Scenario.blank_card <> NONE.
Proof.
  split; [|split; [reflexivity | split; [reflexivity | discriminate]]].
  eexists. split; [left; reflexivity|].
  exists EmptyString, (lower "Hello"). reflexivity.
Qed.

(* ------------------------------------------------------------------ *)
(** ** The router's stream *)

Lemma no_target_false (self : Router) (u : string) :
  no_target self u = false ->
  u <> NONE /\ exists card, dict_get (cards self) u = Some card.
Proof.
  unfold no_target. intros H. apply orb_false_elim in H. destruct H as [Hn Hh].
  split.
  - now apply String.eqb_neq.
  - apply negb_false_iff in Hh. now apply dict_has_get.
Qed.

Lemma routing_target_some (self : Router) (stage1 query u : string) (card : AgentCard) :
  routing_target self stage1 query = Some (u, card) ->
  u = resolve self stage1 query /\ u <> NONE /\
  dict_get (cards self) u = Some card.
Proof.
  unfold routing_target.
  destruct (no_target self (resolve self stage1 query)) eqn:Hn; [discriminate|].
  destruct (no_target_false _ _ Hn) as [Hne [c Hc]].
  rewrite Hc. intros [= <- <-]. auto.
Qed.

Lemma routing_target_none (self : Router) (stage1 query : string) :
  routing_target self stage1 query = None <->
  no_target self (resolve self stage1 query) = true.
Proof.
  unfold routing_target.
  destruct (no_target self (resolve self stage1 query)) eqn:Hn.
  - split; reflexivity.
  - destruct (no_target_false _ _ Hn) as [_ [c Hc]]. rewrite Hc.
    split; discriminate.
Qed.

Section StreamProperties.
Variable http_get : string -> http_result.
Variable oracle : list AgentCard -> string -> result string.
Variable create_client : AgentCard -> result (string -> helper_stream).

Lemma stream_eq (now done : Z) (self : Router) (query : string) :
  stream http_get oracle create_client now done self query =
  (refresh_if_stale http_get now done self,
   match _choose_agent oracle (refresh_if_stale http_get now done self) query with
   | inl e => {| yielded := []; ending := Some e |}
   | inr stage1 =>
       match routing_target (refresh_if_stale http_get now done self)
               stage1 query with
       | None => no_helper_stream
       | Some (_, card) => helper_relay create_client card query
       end
   end).
Proof.
  unfold stream. fold (refresh_if_stale http_get now done self).
  set (self' := refresh_if_stale http_get now done self).
  destruct (_choose_agent oracle self' query) as [e|stage1]; [reflexivity|].
  unfold routing_target.
  destruct (no_target self' (resolve self' stage1 query)) eqn:Hn; [reflexivity|].
  destruct (no_target_false _ _ Hn) as [_ [card Hc]]. rewrite Hc.
  unfold helper_relay. destruct (create_client card); reflexivity.
Qed.

(** C5.  Whenever stage 1 yields NONE or a URL that is not a key of the
    store, the router takes the result of the stage 2 fallback in its
    place; and whatever stage 1 yields, the router either reports that
    no worker is available or turns to a card that the store holds
    under the resolved URL, so that a URL absent from the store is
    never the routing target. *)
Theorem C5_stage2_replaces_unknown_url :
  forall (now done : Z) (self0 : Router) (query stage1 : string),
    _choose_agent oracle (refresh_if_stale http_get now done self0) query
      = inr stage1 ->
    (stage1 = NONE \/
     dict_has (cards (refresh_if_stale http_get now done self0)) stage1 = false ->
     resolve (refresh_if_stale http_get now done self0) stage1 query =
     _fallback_by_tags (refresh_if_stale http_get now done self0) (lower query)) /\
    (snd (stream http_get oracle create_client now done self0 query)
       = no_helper_stream
     \/
     exists card,
       dict_get (cards (refresh_if_stale http_get now done self0))
         (resolve (refresh_if_stale http_get now done self0) stage1 query)
         = Some card /\
       resolve (refresh_if_stale http_get now done self0) stage1 query <> NONE /\
       snd (stream http_get oracle create_client now done self0 query)
         = helper_relay create_client card query).
Proof.
  intros now done self0 query stage1 Hstage1.
  set (self := refresh_if_stale http_get now done self0) in *.
  split.
  - intros Habsent. unfold resolve, no_target.
    destruct Habsent as [-> | Hno].
    + reflexivity.
    + rewrite Hno. simpl. now rewrite orb_true_r.
  - rewrite stream_eq. fold self. cbn [snd]. rewrite Hstage1.
    destruct (routing_target self stage1 query) as [[u card]|] eqn:Ht.
    + right. exists card. apply routing_target_some in Ht.
      destruct Ht as [-> [Hne Hget]]. auto.
    + now left.
Qed.

End StreamProperties.

Lemma C5_stage2_replaces_unknown_url_witness :
  resolve Scenario.two_workers "http://localhost:9999/" "What time is it?" =
  _fallback_by_tags Scenario.two_workers (lower "What time is it?") /\
  dict_get (cards Scenario.two_workers)
    (resolve Scenario.two_workers "http://localhost:9999/" "What time is it?")
    = Some Scenario.time_card.
Proof.
  destruct (C5_stage2_replaces_unknown_url
              (fun _ => RequestFailed)
              (fun _ _ => inr "Try http://localhost:9999/")
              (fun _ => inl (RuntimeFailure "no transport"))
              5 6 Scenario.two_workers "What time is it?"
              (stage1 := "http://localhost:9999/") eq_refl) as [Hfb Hsel].
  split.
  - apply Hfb. right. reflexivity.
  - reflexivity.
Defined.

(* ------------------------------------------------------------------ *)
(** ** The relay loop *)

Lemma terminal_count_app (a b : list queue_event) :
  terminal_count (a ++ b) = terminal_count a + terminal_count b.
Proof.
  unfold terminal_count. now rewrite filter_app, length_app.
Qed.

Lemma terminal_count_zero (out : list queue_event) (t : queue_event) :
  terminal_count out = 0 -> In t out -> is_terminal t = false.
Proof.
  unfold terminal_count. induction out as [|x out IH]; simpl; [contradiction|].
  destruct (is_terminal x) eqn:Hx; simpl; [discriminate|].
  intros H [-> | Hin]; [exact Hx | now apply IH].
Qed.

Lemma enqueue_completed_shape (task : Task) (text : pyval) (e : queue_event) :
  _enqueue_completed task text = inr e ->
  exists s, text = PStr s /\ e = completed_update s task.
Proof.
  unfold _enqueue_completed, new_agent_text_message, bind, ret, raise.
  destruct text; try discriminate.
  intros [= <-]. eexists. split; reflexivity.
Qed.

Section LoopProperties.
Variable artifact_model : pyval -> option pyval.
Variable TaskStatus_model_validate : pyval -> option TaskStatus.

Local Abbreviation step := (relay_step artifact_model TaskStatus_model_validate).
Local Abbreviation loop := (relay_loop artifact_model TaskStatus_model_validate).

(** What one turn of the loop can put on the queue, by the way it
    leaves the loop. *)
Lemma relay_step_next (task : Task) (ev : event) (out : list queue_event) :
  step task ev = (out, Next) -> terminal_count out = 0.
Proof.
  unfold relay_step.
  destruct (dict_has ev "artifact" || dict_has ev "artifacts").
  { destruct (_make_artifact_event artifact_model ev task) as [e|artev];
      [discriminate|].
    destruct (_enqueue_completed task _); discriminate. }
  destruct (eq_str (py_get ev "kind") "task" && dict_has ev "status").
  { unfold _make_status_event.
    destruct (dict_get ev "status") as [s|]; [|discriminate].
    destruct (TaskStatus_model_validate s); [|discriminate].
    intros [= <-]. reflexivity. }
  destruct (truthy (py_get ev "is_task_complete")).
  { destruct (dict_get ev "content") as [answer|]; [|discriminate].
    destruct (new_text_artifact _ _ answer); [discriminate|].
    destruct (_enqueue_completed task answer); discriminate. }
  destruct (dict_get ev "content") as [content|]; [|discriminate].
  destruct (new_agent_text_message content _ _); [discriminate|].
  intros [= <-]. reflexivity.
Qed.

Lemma relay_step_throw (task : Task) (ev : event) (out : list queue_event) (e : exn) :
  step task ev = (out, Throw e) -> terminal_count out = 0.
Proof.
  unfold relay_step.
  destruct (dict_has ev "artifact" || dict_has ev "artifacts").
  { destruct (_make_artifact_event artifact_model ev task) as [e'|artev] eqn:Hmk.
    - intros [= <- _]. reflexivity.
    - apply make_artifact_event_shape in Hmk. destruct Hmk as [a ->].
      destruct (_enqueue_completed task _); [|discriminate].
      intros [= <- _]. reflexivity. }
  destruct (eq_str (py_get ev "kind") "task" && dict_has ev "status").
  { destruct (_make_status_event TaskStatus_model_validate ev task);
      [|discriminate].
    intros [= <- _]. reflexivity. }
  destruct (truthy (py_get ev "is_task_complete")).
  { destruct (dict_get ev "content") as [answer|];
      [|intros [= <- _]; reflexivity].
    destruct (new_text_artifact _ _ answer); [intros [= <- _]; reflexivity|].
    destruct (_enqueue_completed task answer); [|discriminate].
    intros [= <- _]. reflexivity. }
  destruct (dict_get ev "content") as [content|];
    [|intros [= <- _]; reflexivity].
  destruct (new_agent_text_message content _ _); [|discriminate].
  intros [= <- _]. reflexivity.
Qed.

Lemma relay_step_stop (task : Task) (ev : event) (out : list queue_event) :
  step task ev = (out, Stop) ->
  exists a s,
    out = [a; completed_update s task] /\ is_terminal a = false /\
    (artifact_bearing ev = true \/ completion_flagged ev = true).
Proof.
  unfold relay_step, artifact_bearing, completion_flagged.
  destruct (dict_has ev "artifact" || dict_has ev "artifacts").
  { destruct (_make_artifact_event artifact_model ev task) as [e'|artev] eqn:Hmk;
      [discriminate|].
    apply make_artifact_event_shape in Hmk. destruct Hmk as [a ->].
    destruct (_enqueue_completed task _) as [e|fin_ev] eqn:Hc; [discriminate|].
    apply enqueue_completed_shape in Hc. destruct Hc as [s [_ ->]].
    intros [= <-]. eexists _, s. auto. }
  destruct (eq_str (py_get ev "kind") "task" && dict_has ev "status").
  { destruct (_make_status_event TaskStatus_model_validate ev task);
      discriminate. }
  destruct (truthy (py_get ev "is_task_complete")).
  { destruct (dict_get ev "content") as [answer|]; [|discriminate].
    destruct (new_text_artifact _ _ answer); [discriminate|].
    destruct (_enqueue_completed task answer) as [e|fin_ev] eqn:Hc; [discriminate|].
    apply enqueue_completed_shape in Hc. destruct Hc as [s [_ ->]].
    intros [= <-]. eexists _, s. auto. }
  destruct (dict_get ev "content") as [content|]; [|discriminate].
  destruct (new_agent_text_message content _ _); discriminate.
Qed.

Lemma relay_loop_cons (task : Task) (ev : event) (rest : list event) (fin : option exn) :
  loop task (ev :: rest) fin =
  match step task ev with
  | (out, Next) => (out ++ fst (loop task rest fin), snd (loop task rest fin))
  | (out, Stop) => (out, None)
  | (out, Throw e) => (out, Some e)
  end.
Proof.
  cbn [relay_loop]. destruct (step task ev) as [out [| |e]]; try reflexivity.
  destruct (loop task rest fin); reflexivity.
Qed.

Lemma relay_loop_terminal_count (task : Task) (evs : list event) (fin : option exn) :
  terminal_count (fst (loop task evs fin)) <= 1.
Proof.
  induction evs as [|ev rest IH]; [cbn; lia|].
  rewrite relay_loop_cons.
  destruct (step task ev) as [out [| |e]] eqn:Hstep; cbn [fst].
  - rewrite terminal_count_app, (@relay_step_next task ev out Hstep). exact IH.
  - apply relay_step_stop in Hstep. destruct Hstep as [a [s [-> [Ha _]]]].
    unfold terminal_count. simpl. rewrite Ha. simpl. lia.
  - rewrite (@relay_step_throw task ev out e Hstep). lia.
Qed.

Lemma relay_loop_after_terminal (task : Task) (evs : list event)
  (fin : option exn) (t : queue_event) :
  In t (fst (loop task evs fin)) -> is_terminal t = true ->
  snd (loop task evs fin) = None /\
  exists before consumed ev rest,
    fst (loop task evs fin) = before ++ [t] /\
    terminal_count before = 0 /\
    evs = consumed ++ ev :: rest /\
    forall rest' fin', loop task (consumed ++ ev :: rest') fin' = (before ++ [t], None).
Proof.
  induction evs as [|ev rest IH]; [cbn; contradiction|].
  rewrite relay_loop_cons.
  destruct (step task ev) as [out [| |e]] eqn:Hstep; cbn [fst snd]; intros Hin Ht.
  - apply in_app_or in Hin. destruct Hin as [Hin | Hin].
    + apply relay_step_next in Hstep.
      pose proof (@terminal_count_zero out t Hstep Hin). congruence.
    + destruct (IH Hin Ht) as [Hres [before [consumed [ev' [rest0 [Hout [Hz [Hevs Hdrop]]]]]]]].
      split; [exact Hres|].
      exists (out ++ before), (ev :: consumed), ev', rest0.
      split; [now rewrite Hout, app_assoc|].
      split; [now rewrite terminal_count_app, (@relay_step_next task ev out Hstep)|].
      split; [now rewrite Hevs|].
      intros rest' fin'. rewrite <- app_comm_cons, relay_loop_cons, Hstep.
      rewrite (Hdrop rest' fin'). cbn [fst snd]. now rewrite app_assoc.
  - pose proof Hstep as Hshape. apply relay_step_stop in Hshape.
    destruct Hshape as [a [s [-> [Ha _]]]].
    destruct Hin as [<- | [<- | []]]; [rewrite Ha in Ht; discriminate|].
    split; [reflexivity|].
    exists [a], [], ev, rest.
    split; [reflexivity|].
    split; [unfold terminal_count; simpl; now rewrite Ha|].
    split; [reflexivity|].
    intros rest' fin'. cbn [app]. now rewrite relay_loop_cons, Hstep.
  - apply relay_step_throw in Hstep.
    pose proof (@terminal_count_zero out t Hstep Hin). congruence.
Qed.

End LoopProperties.

(* ------------------------------------------------------------------ *)
(** ** [execute] *)

Section ExecuteProperties.
Variable artifact_model : pyval -> option pyval.
Variable TaskStatus_model_validate : pyval -> option TaskStatus.
Variable new_task : Message -> Task.
Variable http_get : string -> http_result.
Variable oracle : list AgentCard -> string -> result string.
Variable create_client : AgentCard -> result (string -> helper_stream).

Local Abbreviation step := (relay_step artifact_model TaskStatus_model_validate).
Local Abbreviation loop := (relay_loop artifact_model TaskStatus_model_validate).
Local Abbreviation run :=
  (execute artifact_model TaskStatus_model_validate new_task
     http_get oracle create_client).
Local Abbreviation refreshed := (refresh_if_stale http_get).

Lemma execute_eq (now done : Z) (router : Router) (ctx : RequestContext) (m : Message) :
  message ctx = Some m ->
  run now done router ctx =
  (refreshed now done router,
   task_created new_task ctx m
   ++ fst (loop (orch_task_of new_task ctx m)
             (yielded (snd (stream http_get oracle create_client now done
                              router (user_input m))))
             (ending (snd (stream http_get oracle create_client now done
                             router (user_input m))))),
   snd (loop (orch_task_of new_task ctx m)
          (yielded (snd (stream http_get oracle create_client now done
                           router (user_input m))))
          (ending (snd (stream http_get oracle create_client now done
                          router (user_input m)))))).
Proof.
  intros Hm. unfold execute, task_created, orch_task_of. rewrite Hm.
  rewrite stream_eq. cbn [snd].
  destruct (current_task ctx); destruct (loop _ _ _); reflexivity.
Qed.

Lemma task_created_not_terminal (ctx : RequestContext) (m : Message) :
  terminal_count (task_created new_task ctx m) = 0.
Proof.
  unfold task_created. destruct (current_task ctx); reflexivity.
Qed.

Lemma step_completion_flag (task : Task) (text : string) :
  step task (progress true text) =
  ([answer_update text task; completed_update text task], Stop).
Proof. reflexivity. Qed.

Lemma step_progress (task : Task) (text : string) :
  step task (progress false text) = ([working_update text task], Next).
Proof. reflexivity. Qed.

(** C1.  Whatever sequence of helper events one call of [execute]
    consumes, at most one terminal event, a status update marked final,
    is put on the queue.  Once the relay loop has put a terminal event
    on the queue that event is the last one, the loop has ended without
    an exception, and the helper events after the one that produced it
    play no part: any other continuation of the sequence, however it
    ends and with whatever further terminal-shaped events, gives the
    same output. *)
Theorem C1_at_most_one_terminal_event :
  forall (now done : Z) (router : Router) (ctx : RequestContext),
    terminal_count (snd (fst (run now done router ctx))) <= 1 /\
    forall (task : Task) (evs : list event) (fin : option exn),
      terminal_count (fst (loop task evs fin)) <= 1 /\
      forall t,
        In t (fst (loop task evs fin)) -> is_terminal t = true ->
        snd (loop task evs fin) = None /\
        exists before consumed ev rest,
          fst (loop task evs fin) = before ++ [t] /\
          terminal_count before = 0 /\
          evs = consumed ++ ev :: rest /\
          forall rest' fin',
            loop task (consumed ++ ev :: rest') fin' = (before ++ [t], None).
Proof.
  intros now done router ctx. split.
  - destruct (message ctx) as [m|] eqn:Hm.
    + rewrite (execute_eq now done router ctx Hm). cbn [fst snd].
      rewrite terminal_count_app, task_created_not_terminal.
      apply relay_loop_terminal_count.
    + unfold execute. rewrite Hm. cbn. lia.
  - intros task evs fin. split.
    + apply relay_loop_terminal_count.
    + intros t. apply relay_loop_after_terminal.
Qed.

(** C2, as the code has it.  When the router finds no worker, which is
    always so when the store is empty, [execute] puts on the queue,
    after the task itself when the request had none, an artifact event
    that carries the text saying that no helper agent can answer, and
    then exactly one status update with state completed, the same text
    as message and final set; nothing else follows, no worker is
    contacted, and the call returns. *)
Theorem C2_no_worker_available :
  forall (now done : Z) (router : Router) (ctx : RequestContext)
         (m : Message) (stage1 : string),
    message ctx = Some m ->
    _choose_agent oracle (refreshed now done router) (user_input m) = inr stage1 ->
    (cards (refreshed now done router) = [] ->
     routing_target (refreshed now done router) stage1 (user_input m) = None) /\
    (routing_target (refreshed now done router) stage1 (user_input m) = None ->
     run now done router ctx =
     (refreshed now done router,
      task_created new_task ctx m
      ++ [ answer_update no_helper_text (orch_task_of new_task ctx m);
           completed_update no_helper_text (orch_task_of new_task ctx m) ],
      None)).
Proof.
  intros now done router ctx m stage1 Hm Hstage1. split.
  - intros Hempty. apply routing_target_none.
    unfold no_target, dict_has. rewrite Hempty. cbn. apply orb_true_r.
  - intros Hnone. rewrite (execute_eq now done router ctx Hm).
    rewrite stream_eq. cbn [snd]. rewrite Hstage1, Hnone. reflexivity.
Qed.

(** C8.  A request without a user message makes [execute] raise at
    once: nothing is put on the queue and the router is left as it
    was. *)
Theorem C8_no_message_aborts :
  forall (now done : Z) (router : Router) (ctx : RequestContext),
    message ctx = None ->
    run now done router ctx = (router, [], Some ValueError).
Proof.
  intros now done router ctx Hm. unfold execute. now rewrite Hm.
Qed.

(** C10.  Whenever the router settles on a worker of the store and the
    client for it is obtained, the caller receives, after the task
    itself when the request had none and before every event translated
    from that worker's stream, one status update with state working,
    final not set, whose message is the announcement naming the
    worker. *)
Theorem C10_worker_announced_first :
  forall (now done : Z) (router : Router) (ctx : RequestContext)
         (m : Message) (stage1 url : string) (card : AgentCard)
         (send_message : string -> helper_stream),
    message ctx = Some m ->
    _choose_agent oracle (refreshed now done router) (user_input m) = inr stage1 ->
    routing_target (refreshed now done router) stage1 (user_input m)
      = Some (url, card) ->
    create_client card = inr send_message ->
    dict_get (cards (refreshed now done router)) url = Some card /\
    snd (fst (run now done router ctx)) =
    task_created new_task ctx m
    ++ working_update (asking_text (card_name card)) (orch_task_of new_task ctx m)
       :: fst (loop (orch_task_of new_task ctx m)
                 (hs_events (send_message (user_input m)))
                 (match hs_end (send_message (user_input m)) with
                  | StreamFailed e => Some e
                  | Exhausted | TransportClosed => None
                  end)) /\
    is_terminal
      (working_update (asking_text (card_name card)) (orch_task_of new_task ctx m))
      = false.
Proof.
  intros now done router ctx m stage1 url card send_message Hm Hstage1 Ht Hc.
  split; [now apply routing_target_some in Ht|]. split; [|reflexivity].
  rewrite (execute_eq now done router ctx Hm). cbn [fst snd].
  rewrite stream_eq. cbn [snd]. rewrite Hstage1, Ht.
  unfold helper_relay. rewrite Hc. cbn [yielded ending].
  rewrite relay_loop_cons, step_progress. reflexivity.
Qed.

(** C9, as the code has it.  A status-update envelope, an event of kind
    task with an embedded status, that carries neither an artifact nor
    artifacts is relayed as one status update with final not set,
    whatever the state inside the status that the helper sent, and the
    relay loop goes on to the next event.  A turn of the loop puts a
    terminal event on the queue only for an artifact-bearing event or
    an event whose completion flag is set. *)
Theorem C9_status_envelope_relayed :
  forall (task : Task) (ev : event),
    (forall s st,
        artifact_bearing ev = false ->
        eq_str (py_get ev "kind") "task" = true ->
        dict_get ev "status" = Some s ->
        TaskStatus_model_validate s = Some st ->
        step task ev =
        ([TaskStatusUpdateEvent (task_id task) (context_id task) st false], Next) /\
        forall rest fin,
          loop task (ev :: rest) fin =
          (TaskStatusUpdateEvent (task_id task) (context_id task) st false
           :: fst (loop task rest fin),
           snd (loop task rest fin))) /\
    (forall t,
        In t (fst (step task ev)) -> is_terminal t = true ->
        artifact_bearing ev = true \/ completion_flagged ev = true).
Proof.
  intros task ev. split.
  - intros s st Hart Hkind Hstatus Hvalid.
    assert (Hstep : step task ev =
              ([TaskStatusUpdateEvent (task_id task) (context_id task) st false],
               Next)).
    { unfold relay_step. unfold artifact_bearing in Hart. rewrite Hart, Hkind.
      unfold dict_has, _make_status_event. rewrite Hstatus, Hvalid. reflexivity. }
    split; [exact Hstep|].
    intros rest fin. now rewrite relay_loop_cons, Hstep.
  - intros t Hin Ht.
    destruct (step task ev) as [out [| |e]] eqn:Hstep; cbn [fst] in Hin.
    + apply relay_step_next in Hstep.
      pose proof (@terminal_count_zero out t Hstep Hin). congruence.
    + apply relay_step_stop in Hstep. now destruct Hstep as [a [s [_ [_ H]]]].
    + apply relay_step_throw in Hstep.
      pose proof (@terminal_count_zero out t Hstep Hin). congruence.
Qed.

End ExecuteProperties.

(* ------------------------------------------------------------------ *)
(** ** The scenarios, run *)

Lemma C1_at_most_one_terminal_event_witness :
  snd (relay_loop Scenario.artifact_model Scenario.status_model
         Scenario.task1 Scenario.insistent_events (Some KeyError)) = None /\
  exists before consumed ev rest,
    fst (relay_loop Scenario.artifact_model Scenario.status_model
           Scenario.task1 Scenario.insistent_events (Some KeyError))
      = before ++ [completed_update "It is 10:00:00 in Asia/Tokyo." Scenario.task1] /\
    terminal_count before = 0 /\
    Scenario.insistent_events = consumed ++ ev :: rest /\
    forall rest' fin',
      relay_loop Scenario.artifact_model Scenario.status_model
        Scenario.task1 (consumed ++ ev :: rest') fin'
      = (before ++ [completed_update "It is 10:00:00 in Asia/Tokyo." Scenario.task1],
         None).
Proof.
  apply (proj2 (proj2 (C1_at_most_one_terminal_event
                         Scenario.artifact_model Scenario.status_model
                         Scenario.new_task Scenario.silent_network
                         Scenario.time_oracle Scenario.time_client
                         100 101 Scenario.two_workers Scenario.first_request)
                  Scenario.task1 Scenario.insistent_events (Some KeyError))).
  - simpl. right. right. left. reflexivity.
  - reflexivity.
Defined.

Lemma C2_no_worker_available_witness :
  execute Scenario.artifact_model Scenario.status_model Scenario.new_task
    Scenario.silent_network Scenario.none_oracle Scenario.no_client
    100 101 Scenario.lonely_router Scenario.first_request
  = (Scenario.lonely_router,
     [ TaskEvent Scenario.task1;
       answer_update no_helper_text Scenario.task1;
       completed_update no_helper_text Scenario.task1 ],
     None).
Proof.
  destruct (C2_no_worker_available
              Scenario.artifact_model Scenario.status_model Scenario.new_task
              Scenario.silent_network Scenario.none_oracle Scenario.no_client
              100 101 Scenario.lonely_router Scenario.first_request
              (m := Scenario.time_question) (stage1 := NONE)
              eq_refl eq_refl) as [Hempty Hrun].
  exact (Hrun (Hempty eq_refl)).
Defined.

(** With an empty store and a task already at hand, [execute] puts two
    events on the queue, and the first of them is an artifact event. *)
Lemma C2_artifact_counterexample :
  cards Scenario.lonely_router = [] /\
  snd (fst (execute Scenario.artifact_model Scenario.status_model
              Scenario.new_task Scenario.silent_network Scenario.none_oracle
              Scenario.no_client 100 101 Scenario.lonely_router
              Scenario.follow_up_request))
  = [ TaskArtifactUpdateEvent "task-1" "ctx-1"
        (PDict [ ("name", PStr "answer");
                 ("description", PStr "Final answer from downstream agent");
                 ("parts", PList [PDict [ ("kind", PStr "text");
                                          ("text", PStr no_helper_text) ]]) ])
        false true;
      TaskStatusUpdateEvent "task-1" "ctx-1"
        {| state := completed;
           status_message := Some (agent_text no_helper_text Scenario.task1) |}
        true ].
Proof.
  split; reflexivity.
Qed.

Lemma C8_no_message_aborts_witness :
  execute Scenario.artifact_model Scenario.status_model Scenario.new_task
    Scenario.silent_network Scenario.time_oracle Scenario.time_client
    1000 1001 Scenario.two_workers Scenario.empty_request
  = (Scenario.two_workers, [], Some ValueError).
Proof.
  apply C8_no_message_aborts. reflexivity.
Defined.

Lemma C9_status_envelope_relayed_witness :
  relay_step Scenario.artifact_model Scenario.status_model Scenario.task1
    Scenario.finished_envelope
  = ([TaskStatusUpdateEvent "task-1" "ctx-1"
        {| state := completed; status_message := None |} false],
     Next).
Proof.
  refine (proj1 (proj1 (C9_status_envelope_relayed
                          Scenario.artifact_model Scenario.status_model
                          Scenario.task1 Scenario.finished_envelope)
                   (PDict [("state", PStr "completed")])
                   {| state := completed; status_message := None |}
                   _ _ _ _));
    reflexivity.
Defined.

(** A task snapshot that carries artifacts is an event of kind task
    with an embedded status, and it ends the relay loop with a terminal
    event. *)
Lemma C9_snapshot_counterexample :
  status_envelope Scenario.task_snapshot = true /\
  relay_step Scenario.artifact_model Scenario.status_model Scenario.task1
    Scenario.task_snapshot
  = ([ TaskArtifactUpdateEvent "task-1" "ctx-1" Scenario.answer_artifact false true;
       TaskStatusUpdateEvent "task-1" "ctx-1"
         {| state := completed;
            status_message :=
              Some (agent_text "It is 10:00:00 in Asia/Tokyo." Scenario.task1) |}
         true ],
     Stop).
Proof.
  split; reflexivity.
Qed.

Lemma C10_worker_announced_first_witness :
  snd (fst (execute Scenario.artifact_model Scenario.status_model
              Scenario.new_task Scenario.silent_network Scenario.time_oracle
              Scenario.time_client 100 101 Scenario.two_workers
              Scenario.first_request))
  = [ TaskEvent Scenario.task1;
      working_update "Asking **Find Time Agent**…" Scenario.task1;
      working_update "thinking" Scenario.task1;
      answer_update "It is 10:00:00 in Asia/Tokyo." Scenario.task1;
      completed_update "It is 10:00:00 in Asia/Tokyo." Scenario.task1 ].
Proof.
  destruct (C10_worker_announced_first
              Scenario.artifact_model Scenario.status_model Scenario.new_task
              Scenario.silent_network Scenario.time_oracle Scenario.time_client
              100 101 Scenario.two_workers Scenario.first_request
              (m := Scenario.time_question)
              (stage1 := "http://localhost:10000/")
              (url := "http://localhost:10000/")
              (card := Scenario.time_card)
              (send_message :=
                 fun _ => {| hs_events := [ progress false "thinking";
                                            progress true "It is 10:00:00 in Asia/Tokyo." ];
                             hs_end := Exhausted |})
              eq_refl eq_refl eq_refl eq_refl) as [_ [Hout _]].
  rewrite Hout. reflexivity.
Defined.

(* ------------------------------------------------------------------ *)
(** ** Discovery *)

Lemma dict_get_set {V} (d : dict V) (k k' : string) (v : V) :
  dict_get (dict_set d k v) k' =
  if String.eqb k' k then Some v else dict_get d k'.
Proof.
  induction d as [|[k0 v0] d IH]; simpl.
  - reflexivity.
  - destruct (String.eqb_spec k k0) as [->|Hne]; simpl.
    + destruct (String.eqb k' k0); reflexivity.
    + rewrite IH. destruct (String.eqb_spec k' k0) as [->|Hne'];
        [|reflexivity].
      destruct (String.eqb_spec k0 k) as [Heq|_]; [congruence | reflexivity].
Qed.

Lemma dict_set_In {V} (d : dict V) (k k' : string) (v v' : V) :
  In (k', v') (dict_set d k v) -> In (k', v') d \/ (k' = k /\ v' = v).
Proof.
  induction d as [|[k0 v0] d IH]; simpl.
  - intros [[= <- <-] | []]. now right.
  - destruct (String.eqb_spec k k0) as [->|Hne]; simpl.
    + intros [[= <- <-] | Hin]; [now right | left; now right].
    + intros [Heq | Hin]; [left; now left|].
      destruct (IH Hin) as [H | H]; [left; now right | now right].
Qed.

Lemma dict_has_keys {V} (d : dict V) (k : string) :
  dict_has d k = true <-> In k (dict_keys d).
Proof.
  unfold dict_has, dict_keys. induction d as [|[k0 v0] d IH]; simpl.
  - split; [discriminate | contradiction].
  - destruct (String.eqb_spec k k0) as [->|Hne].
    + split; [now left | reflexivity].
    + rewrite IH. split; [now right | intros [H | H]; [congruence | exact H]].
Qed.

Lemma dict_set_keys {V} (d : dict V) (k : string) (v : V) :
  dict_keys (dict_set d k v) =
  if dict_has d k then dict_keys d else dict_keys d ++ [k].
Proof.
  unfold dict_has, dict_keys. induction d as [|[k0 v0] d IH]; simpl.
  - reflexivity.
  - destruct (String.eqb_spec k k0) as [->|Hne]; simpl; [reflexivity|].
    rewrite IH. destruct (dict_get d k); reflexivity.
Qed.

Lemma dict_set_fresh {V} (d : dict V) (k : string) (v : V) :
  ~ In k (dict_keys d) -> dict_set d k v = d ++ [(k, v)].
Proof.
  unfold dict_keys. induction d as [|[k0 v0] d IH]; simpl; intros Hk.
  - reflexivity.
  - destruct (String.eqb_spec k k0) as [->|Hne].
    + exfalso. apply Hk. now left.
    + rewrite IH; [reflexivity|]. intros H. apply Hk. now right.
Qed.

Lemma dict_set_NoDup {V} (d : dict V) (k : string) (v : V) :
  NoDup (dict_keys d) -> NoDup (dict_keys (dict_set d k v)).
Proof.
  intros Hd. rewrite dict_set_keys.
  destruct (dict_has d k) eqn:Hk; [exact Hd|].
  apply NoDup_app; [exact Hd | repeat constructor; intros [] |].
  intros x Hx [<- | []].
  apply dict_has_keys in Hx. congruence.
Qed.

Section DiscoveryProperties.
Variable http_get : string -> http_result.

Lemma cards_by_url_fetched (peers : list string) (d : dict AgentCard) :
  fold_left
    (fun d oc => match oc with
                 | Some c => dict_set d (card_url c) c
                 | None => d
                 end)
    (map (_fetch_card http_get) peers) d
  = fold_left put_card (fetched http_get peers) d.
Proof.
  revert d. unfold fetched.
  induction peers as [|u peers IH]; intros d; simpl; [reflexivity|].
  rewrite fold_left_app, IH.
  destruct (_fetch_card http_get u); reflexivity.
Qed.

Lemma fetched_In (peers : list string) (c : AgentCard) :
  In c (fetched http_get peers) <->
  exists u, In u peers /\
            http_get (u ++ "/.well-known/agent-card.json")%string = CardReceived c.
Proof.
  unfold fetched. rewrite in_flat_map. unfold _fetch_card.
  split; intros [u [Hu H]]; exists u; (split; [exact Hu|]).
  - destruct (http_get _) as [| code | | c']; try contradiction.
    destruct H as [-> | []]. reflexivity.
  - rewrite H. now left.
Qed.

Lemma put_cards_get (cs : list AgentCard) (d : dict AgentCard) (u : string) :
  dict_get (fold_left put_card cs d) u =
  match last_with_url u cs with
  | Some c => Some c
  | None => dict_get d u
  end.
Proof.
  revert d. unfold last_with_url.
  induction cs as [|c cs IH]; intros d; simpl; [reflexivity|].
  rewrite IH, find_app_first.
  destruct (find (fun c0 => String.eqb u (card_url c0)) (rev cs));
    [reflexivity|].
  unfold put_card. rewrite dict_get_set. simpl.
  destruct (String.eqb u (card_url c)); reflexivity.
Qed.

Lemma put_cards_In (cs : list AgentCard) (d : dict AgentCard) (k : string) (c : AgentCard) :
  In (k, c) (fold_left put_card cs d) ->
  In (k, c) d \/ (k = card_url c /\ In c cs).
Proof.
  revert d. induction cs as [|c0 cs IH]; intros d; simpl; [now left|].
  intros Hin. destruct (IH _ Hin) as [H | [Hk Hc]].
  - unfold put_card in H. apply dict_set_In in H.
    destruct H as [H | [-> ->]]; [now left | right; split; [reflexivity | now left]].
  - right. split; [exact Hk | now right].
Qed.

Lemma put_cards_NoDup (cs : list AgentCard) (d : dict AgentCard) :
  NoDup (dict_keys d) -> NoDup (dict_keys (fold_left put_card cs d)).
Proof.
  revert d. induction cs as [|c cs IH]; intros d Hd; simpl; [exact Hd|].
  apply IH. now apply dict_set_NoDup.
Qed.

Lemma put_cards_distinct (cs : list AgentCard) (d : dict AgentCard) :
  NoDup (map card_url cs) ->
  (forall c, In c cs -> ~ In (card_url c) (dict_keys d)) ->
  fold_left put_card cs d = d ++ map entry_of cs.
Proof.
  revert d. induction cs as [|c cs IH]; intros d Hnd Hfresh; simpl.
  - now rewrite app_nil_r.
  - inversion Hnd as [|? ? Hnotin Hnd']; subst.
    unfold put_card at 2.
    rewrite dict_set_fresh by (apply Hfresh; now left).
    rewrite IH; [now rewrite <- app_assoc|exact Hnd'|].
    intros c' Hc' Hin. unfold dict_keys in Hin. rewrite map_app in Hin.
    apply in_app_or in Hin. destruct Hin as [Hin | [Heq | []]].
    + apply (Hfresh c'); [now right | exact Hin].
    + simpl in Heq. apply Hnotin. rewrite Heq. now apply in_map.
Qed.

(** C6, as the code has it.  After every refresh the store holds
    exactly the descriptors that were fetched with success, each under
    the URL that it advertises: candidates whose request fails, whose
    status is refused or whose payload is rejected leave no entry, what
    the store held before plays no part, and where several fetched
    descriptors advertise one URL the store keeps the one of the last
    such candidate; when the advertised URLs are pairwise distinct the
    entries are the fetched descriptors one for one, in the order of
    the candidates.  The time of the last discovery is set to the time
    at which the refresh completes, whatever was fetched, also when
    nothing was. *)
Theorem C6_refresh_replaces_store :
  forall (done : Z) (self : Router),
    last_discovery (_discover http_get done self) = done /\
    peer_urls (_discover http_get done self) = peer_urls self /\
    (forall c,
        In c (fetched http_get (peer_urls self)) <->
        exists u, In u (peer_urls self) /\
                  http_get (u ++ "/.well-known/agent-card.json")%string
                    = CardReceived c) /\
    (forall u,
        dict_get (cards (_discover http_get done self)) u =
        last_with_url u (fetched http_get (peer_urls self))) /\
    (forall k c,
        In (k, c) (cards (_discover http_get done self)) ->
        k = card_url c /\ In c (fetched http_get (peer_urls self))) /\
    NoDup (dict_keys (cards (_discover http_get done self))) /\
    (NoDup (map card_url (fetched http_get (peer_urls self))) ->
     cards (_discover http_get done self) =
     map entry_of (fetched http_get (peer_urls self))) /\
    (fetched http_get (peer_urls self) = [] ->
     cards (_discover http_get done self) = []).
Proof.
  intros done self. unfold _discover. cbn [last_discovery peer_urls cards].
  unfold cards_by_url. rewrite cards_by_url_fetched.
  split; [reflexivity|]. split; [reflexivity|].
  split; [intros c; apply fetched_In|].
  split.
  { intros u. rewrite put_cards_get.
    destruct (last_with_url u _); reflexivity. }
  split.
  { intros k c Hin. apply put_cards_In in Hin.
    destruct Hin as [[] | H]. exact H. }
  split; [apply put_cards_NoDup; constructor|].
  split.
  { intros Hnd. rewrite put_cards_distinct; [reflexivity | exact Hnd|].
    intros c _ []. }
  intros ->. reflexivity.
Qed.

End DiscoveryProperties.

Lemma C6_refresh_replaces_store_witness :
  cards (_discover Scenario.partial_network 700 Scenario.stale_router)
    = [ ("http://localhost:10000/", Scenario.time_card);
        ("http://localhost:10001/", Scenario.greet_card) ] /\
  dict_get (cards (_discover Scenario.partial_network 700 Scenario.stale_router))
    "http://localhost:10002/" = None /\
  last_discovery (_discover Scenario.partial_network 700 Scenario.stale_router)
    = 700%Z /\
  cards (_discover Scenario.silent_network 700 Scenario.stale_router) = [] /\
  last_discovery (_discover Scenario.silent_network 700 Scenario.stale_router)
    = 700%Z.
Proof.
  destruct (C6_refresh_replaces_store Scenario.partial_network 700
              Scenario.stale_router)
    as [Htime [_ [_ [Hget [_ [_ [Hdistinct _]]]]]]].
  destruct (C6_refresh_replaces_store Scenario.silent_network 700
              Scenario.stale_router)
    as [Htime' [_ [_ [_ [_ [_ [_ Hnone]]]]]]].
  split; [|split; [|split; [|split]]].
  - rewrite Hdistinct; [reflexivity|].
    repeat constructor; simpl; intuition discriminate.
  - rewrite Hget. reflexivity.
  - exact Htime.
  - apply Hnone. reflexivity.
  - exact Htime'.
Defined.

(** Both candidates answer with a card, the two cards advertise the
    same URL, and the store ends with the second card only: the first
    was fetched with success and is not in the store. *)
Lemma C6_shared_url_counterexample :
  fetched Scenario.mirrored_network (peer_urls Scenario.mirrored_router)
    = [Scenario.time_card; Scenario.mirror_card] /\
  cards (_discover Scenario.mirrored_network 700 Scenario.mirrored_router)
    = [("http://localhost:10000/", Scenario.mirror_card)] /\
  ~ In Scenario.time_card
      (dict_values
         (cards (_discover Scenario.mirrored_network 700 Scenario.mirrored_router))).
Proof.
  split; [reflexivity|]. split; [reflexivity|].
  intros [H | []]. discriminate H.
Qed.

(* ------------------------------------------------------------------ *)
(** * Further properties of the orchestrator *)

(** ** The extent of the extracted URL *)

Lemma take_while_rest (p : ascii -> bool) (s : string) :
  exists rest,
    s = (take_while p s ++ rest)%string /\
    (rest = EmptyString \/ exists c r, rest = String c r /\ p c = false).
Proof.
  induction s as [|c s [rest [IH Hrest]]]; simpl.
  - exists EmptyString. auto.
  - destruct (p c) eqn:Hc.
    + exists rest. simpl. split; [now rewrite <- IH | exact Hrest].
    + exists (String c s). split; [reflexivity|]. right. eauto.
Qed.

Lemma match_tail_extent (s body : string) :
  match_tail s = Some body ->
  exists rest,
    s = ("://" ++ body ++ rest)%string /\
    (rest = EmptyString \/ exists c r, rest = String c r /\ url_char c = false).
Proof.
  unfold match_tail. destruct (strip_prefix "://" s) as [r|] eqn:Hr; [|discriminate].
  apply strip_prefix_spec in Hr.
  destruct (take_while_rest url_char r) as [rest [Hsplit Hrest]].
  destruct (take_while url_char r) as [|c b] eqn:Htw; [discriminate|].
  intros [= <-]. exists rest. split; [now rewrite Hr, Hsplit | exact Hrest].
Qed.

Lemma match_here_extent (s m : string) :
  match_here s = Some m ->
  exists rest,
    s = (m ++ rest)%string /\
    (rest = EmptyString \/ exists c r, rest = String c r /\ url_char c = false).
Proof.
  unfold match_here.
  destruct (strip_prefix "http" s) as [r|] eqn:Hr; [|discriminate].
  apply strip_prefix_spec in Hr.
  destruct (match strip_prefix "s" r with
            | Some r' => match_tail r'
            | None => None
            end) as [body|] eqn:Hs.
  - intros [= <-].
    destruct (strip_prefix "s" r) as [r'|] eqn:Hr'; [|discriminate].
    apply strip_prefix_spec in Hr'.
    apply match_tail_extent in Hs. destruct Hs as [rest [Hsplit Hrest]].
    exists rest. split; [|exact Hrest]. rewrite Hr, Hr', Hsplit. reflexivity.
  - destruct (match_tail r) as [body|] eqn:Ht; [|discriminate].
    intros [= <-].
    apply match_tail_extent in Ht. destruct Ht as [rest [Hsplit Hrest]].
    exists rest. split; [|exact Hrest]. rewrite Hr, Hsplit. reflexivity.
Qed.

Lemma re_search_leftmost (s m : string) :
  re_search s = Some m ->
  exists before after,
    s = (before ++ m ++ after)%string /\
    (after = EmptyString \/ exists c r, after = String c r /\ url_char c = false) /\
    forall b1 b2,
      before = (b1 ++ b2)%string -> b2 <> EmptyString ->
      match_here (b2 ++ m ++ after)%string = None.
Proof.
  induction s as [|c s IH]; cbn [re_search].
  - discriminate.
  - destruct (match_here (String c s)) as [m'|] eqn:Hm.
    + intros [= <-]. apply match_here_extent in Hm.
      destruct Hm as [rest [Hsplit Hrest]].
      exists EmptyString, rest. split; [exact Hsplit|]. split; [exact Hrest|].
      intros b1 b2 Hb Hne. destruct b1; destruct b2; try discriminate.
      now contradiction Hne.
    + intros H. destruct (IH H) as [before [after [Hs [Hrest Hleft]]]].
      exists (String c before), after.
      split; [simpl; now rewrite Hs|]. split; [exact Hrest|].
      intros b1 b2 Hb Hne. destruct b1 as [|x b1]; simpl in Hb.
      * subst b2. simpl. rewrite <- Hs. exact Hm.
      * injection Hb as _ Hb. now apply (Hleft b1 b2).
Qed.

(** X1.  When stage 1 resolves to a URL, that URL is the leftmost and
    longest match in the reply: no URL-shaped token begins at an
    earlier position of the reply, and the URL runs up to the end of
    the reply or to the next white space, quote or angle bracket, so
    that punctuation written straight after a URL belongs to the
    result. *)
Theorem X1_stage1_url_leftmost_longest :
  forall (oracle : list AgentCard -> string -> result string)
         (self : Router) (question reply url : string),
    oracle (dict_values (cards self)) question = inr reply ->
    _choose_agent oracle self question = inr url ->
    url <> NONE ->
    exists before after,
      reply = (before ++ url ++ after)%string /\
      (after = EmptyString \/
       exists c rest, after = String c rest /\ url_char c = false) /\
      forall b1 b2 t rest,
        before = (b1 ++ b2)%string -> b2 <> EmptyString ->
        (b2 ++ url ++ after)%string = (t ++ rest)%string ->
        ~ url_shaped t.
Proof.
  intros oracle self question reply url Hreply Hchoose Hurl.
  unfold _choose_agent, bind, ret in Hchoose. rewrite Hreply in Hchoose.
  injection Hchoose as Hparse. unfold parse_reply in Hparse.
  destruct (re_search reply) as [m|] eqn:Hm; [|congruence]. subst m.
  destruct (re_search_leftmost _ Hm) as [before [after [Hs [Hrest Hleft]]]].
  exists before, after. split; [exact Hs|]. split; [exact Hrest|].
  intros b1 b2 t rest Hb Hne Heq Ht.
  apply (match_here_complete rest) in Ht. rewrite <- Heq in Ht.
  apply Ht. now apply (Hleft b1 b2).
Qed.

Lemma X1_stage1_url_leftmost_longest_witness :
  exists before after,
    Scenario.punctuated_reply
      = (before ++ "http://localhost:10000/." ++ after)%string /\
    (after = EmptyString \/
     exists c rest, after = String c rest /\ url_char c = false) /\
    forall b1 b2 t rest,
      before = (b1 ++ b2)%string -> b2 <> EmptyString ->
      (b2 ++ "http://localhost:10000/." ++ after)%string = (t ++ rest)%string ->
      ~ url_shaped t.
Proof.
  apply (X1_stage1_url_leftmost_longest
           (fun _ _ => inr Scenario.punctuated_reply)
           Scenario.two_workers "what time is it"
           (reply := Scenario.punctuated_reply)
           (url := "http://localhost:10000/.")).
  - reflexivity.
  - reflexivity.
  - discriminate.
Defined.

(* ------------------------------------------------------------------ *)
(** ** What the relay puts on the queue *)

Section RelayOutput.
Variable artifact_model : pyval -> option pyval.
Variable TaskStatus_model_validate : pyval -> option TaskStatus.
Variable new_task : Message -> Task.
Variable http_get : string -> http_result.
Variable oracle : list AgentCard -> string -> result string.
Variable create_client : AgentCard -> result (string -> helper_stream).

Local Abbreviation step := (relay_step artifact_model TaskStatus_model_validate).
Local Abbreviation loop := (relay_loop artifact_model TaskStatus_model_validate).
Local Abbreviation run :=
  (execute artifact_model TaskStatus_model_validate new_task
     http_get oracle create_client).

(** Every way in which one turn of the loop can end, with its output. *)
Lemma relay_step_output (task : Task) (ev : event) :
  (exists st, step task ev =
              ([TaskStatusUpdateEvent (task_id task) (context_id task) st false],
               Next)) \/
  (exists a s, step task ev =
               ([TaskArtifactUpdateEvent (task_id task) (context_id task) a false true;
                 completed_update s task], Stop)) \/
  (exists e, step task ev = ([], Throw e)) \/
  (exists a e, step task ev =
               ([TaskArtifactUpdateEvent (task_id task) (context_id task) a false true],
                Throw e)).
Proof.
  unfold relay_step.
  destruct (dict_has ev "artifact" || dict_has ev "artifacts").
  { destruct (_make_artifact_event artifact_model ev task) as [e|artev] eqn:Hmk.
    - right. right. left. now exists e.
    - apply make_artifact_event_shape in Hmk. destruct Hmk as [a ->].
      destruct (_enqueue_completed task _) as [e|fin_ev] eqn:Hc.
      + right. right. right. now exists a, e.
      + apply enqueue_completed_shape in Hc. destruct Hc as [s [_ ->]].
        right. left. now exists a, s. }
  destruct (eq_str (py_get ev "kind") "task" && dict_has ev "status").
  { unfold _make_status_event.
    destruct (dict_get ev "status") as [s|]; [|right; right; left; eexists; reflexivity].
    destruct (TaskStatus_model_validate s) as [st|];
      [left; exists st; reflexivity | right; right; left; eexists; reflexivity]. }
  destruct (truthy (py_get ev "is_task_complete")).
  { destruct (dict_get ev "content") as [answer|]; [|right; right; left; eexists; reflexivity].
    unfold new_text_artifact, _enqueue_completed, new_agent_text_message, bind.
    destruct answer; try (right; right; left; eexists; reflexivity).
    right. left. eexists _, s. reflexivity. }
  destruct (dict_get ev "content") as [content|]; [|right; right; left; eexists; reflexivity].
  unfold new_agent_text_message.
  destruct content; try (right; right; left; eexists; reflexivity).
  left. eexists. reflexivity.
Qed.


(** X3.  The only terminal event that the relay loop ever puts on the
    queue is a status update with state completed, and it comes
    straight after an artifact event with append unset and lastChunk
    set; the loop never ends a request with a failed, canceled or
    input-required status of its own. *)
Theorem X3_terminal_event_is_completed_after_artifact :
  forall (task : Task) (evs : list event) (fin : option exn) (t : queue_event),
    In t (fst (loop task evs fin)) -> is_terminal t = true ->
    exists earlier a s,
      t = completed_update s task /\
      fst (loop task evs fin) =
      earlier
      ++ [ TaskArtifactUpdateEvent (task_id task) (context_id task) a false true;
           completed_update s task ].
Proof.
  intros task evs fin t. induction evs as [|ev rest IH]; [contradiction|].
  rewrite relay_loop_cons.
  destruct (relay_step_output task ev)
    as [[st Hs] | [[a [s Hs]] | [[e' Hs] | [a [e' Hs]]]]];
    rewrite Hs; cbn [fst]; intros Hin Ht.
  - destruct Hin as [<- | Hin]; [discriminate|].
    destruct (IH Hin Ht) as [earlier [a [s [-> Hout]]]].
    exists (TaskStatusUpdateEvent (task_id task) (context_id task) st false
            :: earlier), a, s.
    split; [reflexivity|]. cbn [app]. now rewrite Hout.
  - destruct Hin as [<- | [<- | []]]; [discriminate|].
    exists [], a, s. split; reflexivity.
  - contradiction.
  - destruct Hin as [<- | []]. discriminate.
Qed.

End RelayOutput.

Lemma X3_terminal_event_is_completed_after_artifact_witness :
  exists earlier a s,
    completed_update "It is 10:00:00 in Asia/Tokyo." Scenario.task1
      = completed_update s Scenario.task1 /\
    fst (relay_loop Scenario.artifact_model Scenario.status_model
           Scenario.task1 Scenario.insistent_events None) =
    earlier
    ++ [ TaskArtifactUpdateEvent "task-1" "ctx-1" a false true;
         completed_update s Scenario.task1 ].
Proof.
  apply (X3_terminal_event_is_completed_after_artifact
           Scenario.artifact_model Scenario.status_model
           Scenario.task1 Scenario.insistent_events None).
  - simpl. right. right. left. reflexivity.
  - reflexivity.
Defined.


(* ------------------------------------------------------------------ *)
(** ** Streams that end without an answer, and malformed events *)

Section RelayEdges.
Variable artifact_model : pyval -> option pyval.
Variable TaskStatus_model_validate : pyval -> option TaskStatus.
Variable new_task : Message -> Task.
Variable http_get : string -> http_result.
Variable oracle : list AgentCard -> string -> result string.
Variable create_client : AgentCard -> result (string -> helper_stream).

Local Abbreviation step := (relay_step artifact_model TaskStatus_model_validate).
Local Abbreviation loop := (relay_loop artifact_model TaskStatus_model_validate).
Local Abbreviation run :=
  (execute artifact_model TaskStatus_model_validate new_task
     http_get oracle create_client).
Local Abbreviation refreshed := (refresh_if_stale http_get).

Lemma step_not_terminal_shaped (task : Task) (ev : event) :
  terminal_shaped ev = false -> terminal_count (fst (step task ev)) = 0.
Proof.
  intros Hshape.
  destruct (step task ev) as [out [| |e]] eqn:Hstep; cbn [fst].
  - now apply relay_step_next in Hstep.
  - apply relay_step_stop in Hstep. destruct Hstep as [a [s [_ [_ H]]]].
    unfold terminal_shaped in Hshape. apply orb_false_elim in Hshape.
    destruct Hshape, H; congruence.
  - now apply relay_step_throw in Hstep.
Qed.

Lemma loop_not_terminal_shaped (task : Task) (evs : list event) (fin : option exn) :
  (forall ev, In ev evs -> terminal_shaped ev = false) ->
  terminal_count (fst (loop task evs fin)) = 0.
Proof.
  induction evs as [|ev rest IH]; intros Hall; [reflexivity|].
  rewrite relay_loop_cons.
  pose proof (@step_not_terminal_shaped task ev (Hall ev (or_introl eq_refl))) as H0.
  destruct (step task ev) as [out [| |e]]; cbn [fst] in *; try exact H0.
  rewrite terminal_count_app, H0. apply IH. intros ev' Hin. apply Hall. now right.
Qed.

Lemma step_valid_envelope (task : Task) (ev : event) :
  valid_envelope TaskStatus_model_validate ev ->
  exists st,
    step task ev =
    ([TaskStatusUpdateEvent (task_id task) (context_id task) st false], Next).
Proof.
  intros [Hart [Hkind [s [st [Hs Hv]]]]]. exists st.
  unfold relay_step. unfold artifact_bearing in Hart. rewrite Hart, Hkind.
  unfold dict_has, _make_status_event. rewrite Hs, Hv. reflexivity.
Qed.

Lemma loop_valid_envelopes (task : Task) (evs : list event) (fin : option exn) :
  (forall ev, In ev evs -> valid_envelope TaskStatus_model_validate ev) ->
  snd (loop task evs fin) = fin /\
  List.length (fst (loop task evs fin)) = List.length evs /\
  terminal_count (fst (loop task evs fin)) = 0.
Proof.
  induction evs as [|ev rest IH]; intros Hall; [repeat split|].
  rewrite relay_loop_cons.
  destruct (@step_valid_envelope task ev (Hall ev (or_introl eq_refl))) as [st ->].
  destruct IH as [Hres [Hlen Hcount]]; [intros ev' Hin; apply Hall; now right|].
  cbn [fst snd]. split; [exact Hres|]. split.
  - simpl. now rewrite Hlen.
  - rewrite terminal_count_app, Hcount. reflexivity.
Qed.

(** X4.  A helper stream that ends without a terminal-shaped event
    leaves the caller without a terminal event.  In the relay loop,
    events that are neither artifact-bearing nor flagged complete
    never produce a terminal event.  When the router has settled on a
    worker whose stream yields valid status envelopes only and then
    breaks with one of the transport errors that the router catches,
    [execute] returns without an exception, having put on the queue
    the announcement and one non-final status per envelope, and no
    terminal event and no failed status at all. *)
Theorem X4_broken_stream_ends_silently :
  (forall (task : Task) (evs : list event) (fin : option exn),
      (forall ev, In ev evs -> terminal_shaped ev = false) ->
      terminal_count (fst (loop task evs fin)) = 0) /\
  (forall (now done : Z) (router : Router) (ctx : RequestContext)
          (m : Message) (stage1 url : string) (card : AgentCard)
          (send_message : string -> helper_stream),
      message ctx = Some m ->
      _choose_agent oracle (refreshed now done router) (user_input m) = inr stage1 ->
      routing_target (refreshed now done router) stage1 (user_input m)
        = Some (url, card) ->
      create_client card = inr send_message ->
      (forall ev, In ev (hs_events (send_message (user_input m))) ->
                  valid_envelope TaskStatus_model_validate ev) ->
      hs_end (send_message (user_input m)) = TransportClosed ->
      snd (run now done router ctx) = None /\
      terminal_count (snd (fst (run now done router ctx))) = 0 /\
      List.length (snd (fst (run now done router ctx))) =
      List.length (task_created new_task ctx m)
      + 1 + List.length (hs_events (send_message (user_input m)))).
Proof.
  split; [apply loop_not_terminal_shaped|].
  intros now done router ctx m stage1 url card send_message
    Hm Hstage1 Ht Hc Hall Hend.
  rewrite (execute_eq artifact_model TaskStatus_model_validate new_task
             http_get oracle create_client now done router ctx Hm).
  cbn [fst snd]. rewrite stream_eq. cbn [snd]. rewrite Hstage1, Ht.
  unfold helper_relay. rewrite Hc, Hend. cbn [yielded ending].
  rewrite relay_loop_cons, step_progress. cbn [fst snd].
  destruct (@loop_valid_envelopes (orch_task_of new_task ctx m) _ None Hall)
    as [Hres [Hlen Hcount]].
  split; [exact Hres|]. split.
  - rewrite terminal_count_app, task_created_not_terminal.
    change (working_update ?t ?k :: ?l) with ([working_update t k] ++ l).
    rewrite terminal_count_app, Hcount. reflexivity.
  - rewrite length_app. simpl. rewrite Hlen. lia.
Qed.

(** X5.  Two malformed events end the request with an exception and
    with nothing put on the queue for them, the rest of the stream
    being dropped: an event whose artifacts list is empty raises
    IndexError, and an event that is neither artifact-bearing nor a
    status envelope and has no content, such as a helper's message,
    raises KeyError. *)
Theorem X5_malformed_event_aborts :
  forall (task : Task) (ev : event) (rest : list event) (fin : option exn),
    (dict_get ev "artifact" = None ->
     dict_get ev "artifacts" = Some (PList []) ->
     loop task (ev :: rest) fin = ([], Some IndexError)) /\
    (artifact_bearing ev = false ->
     status_envelope ev = false ->
     dict_get ev "content" = None ->
     loop task (ev :: rest) fin = ([], Some KeyError)).
Proof.
  intros task ev rest fin. split.
  - intros Ha Hl. rewrite relay_loop_cons. unfold relay_step, dict_has.
    unfold _make_artifact_event. rewrite Ha, Hl. reflexivity.
  - intros Hart Henv Hc. rewrite relay_loop_cons. unfold relay_step.
    unfold artifact_bearing in Hart. unfold status_envelope in Henv.
    rewrite Hart, Henv, Hc.
    destruct (truthy (py_get ev "is_task_complete")); reflexivity.
Qed.

(** X6.  An artifact-bearing event is handled through one artifact
    only: the one under the key artifact when that key is present,
    otherwise the first of the list under artifacts.  Everything else
    in the event, further artifacts, a status, a kind, a completion
    flag or content, has no influence on what is put on the queue. *)
Theorem X6_only_selected_artifact_matters :
  forall (task : Task) (ev : event) (a : pyval),
    (dict_get ev "artifact" = Some a \/
     (dict_get ev "artifact" = None /\
      exists more, dict_get ev "artifacts" = Some (PList (a :: more)))) ->
    step task ev = step task [("artifact", a)].
Proof.
  intros task ev a Hsel. unfold relay_step, dict_has, _make_artifact_event.
  destruct Hsel as [Ha | [Ha [more Hl]]].
  - rewrite Ha. reflexivity.
  - rewrite Ha, Hl. reflexivity.
Qed.

End RelayEdges.

Lemma X4_broken_stream_ends_silently_witness :
  execute Scenario.artifact_model Scenario.status_model Scenario.new_task
    Scenario.silent_network Scenario.time_oracle Scenario.breaking_client
    100 101 Scenario.two_workers Scenario.follow_up_request
  = (Scenario.two_workers,
     [ working_update "Asking **Find Time Agent**…" Scenario.task1;
       TaskStatusUpdateEvent "task-1" "ctx-1"
         {| state := working; status_message := None |} false;
       TaskStatusUpdateEvent "task-1" "ctx-1"
         {| state := completed; status_message := None |} false ],
     None) /\
  terminal_count
    (snd (fst (execute Scenario.artifact_model Scenario.status_model
                 Scenario.new_task Scenario.silent_network Scenario.time_oracle
                 Scenario.breaking_client 100 101 Scenario.two_workers
                 Scenario.follow_up_request))) = 0.
Proof.
  split; [reflexivity|].
  refine (proj1 (proj2 (proj2 (X4_broken_stream_ends_silently
                                 Scenario.artifact_model Scenario.status_model
                                 Scenario.new_task Scenario.silent_network
                                 Scenario.time_oracle Scenario.breaking_client)
                          100%Z 101%Z Scenario.two_workers
                          Scenario.follow_up_request
                          Scenario.time_question "http://localhost:10000/"
                          "http://localhost:10000/" Scenario.time_card
                          (fun _ => {| hs_events := [ Scenario.working_envelope;
                                                      Scenario.finished_envelope ];
                                       hs_end := TransportClosed |})
                          eq_refl eq_refl eq_refl eq_refl _ eq_refl))).
  intros ev [<- | [<- | []]]; (split; [reflexivity|]); (split; [reflexivity|]).
  - exists (PDict [("state", PStr "working")]),
      {| state := working; status_message := None |}. split; reflexivity.
  - exists (PDict [("state", PStr "completed")]),
      {| state := completed; status_message := None |}. split; reflexivity.
Defined.

Lemma X5_malformed_event_aborts_witness :
  relay_loop Scenario.artifact_model Scenario.status_model Scenario.task1
    [Scenario.bare_snapshot; Scenario.task_snapshot] None
  = ([], Some IndexError) /\
  relay_loop Scenario.artifact_model Scenario.status_model Scenario.task1
    [Scenario.helper_message; Scenario.task_snapshot] None
  = ([], Some KeyError).
Proof.
  split.
  - apply (proj1 (X5_malformed_event_aborts
                    Scenario.artifact_model Scenario.status_model Scenario.task1
                    Scenario.bare_snapshot [Scenario.task_snapshot] None));
      reflexivity.
  - apply (proj2 (X5_malformed_event_aborts
                    Scenario.artifact_model Scenario.status_model Scenario.task1
                    Scenario.helper_message [Scenario.task_snapshot] None));
      reflexivity.
Defined.

Lemma X6_only_selected_artifact_matters_witness :
  relay_step Scenario.artifact_model Scenario.status_model Scenario.task1
    Scenario.task_snapshot
  = relay_step Scenario.artifact_model Scenario.status_model Scenario.task1
      [("artifact", Scenario.answer_artifact)].
Proof.
  apply X6_only_selected_artifact_matters.
  right. split; [reflexivity|]. exists []. reflexivity.
Defined.

(* ------------------------------------------------------------------ *)
(** ** Refreshing and routing on a discovered store *)

Lemma dict_get_NoDup {V} (d : dict V) (k : string) (v : V) :
  NoDup (dict_keys d) -> In (k, v) d -> dict_get d k = Some v.
Proof.
  unfold dict_keys. induction d as [|[k0 v0] d IH]; simpl; [contradiction|].
  intros Hnd Hin. inversion Hnd as [|? ? Hnotin Hnd']; subst.
  destruct Hin as [[= -> ->] | Hin].
  - now rewrite String.eqb_refl.
  - destruct (String.eqb_spec k k0) as [->|_]; [|now apply IH].
    exfalso. apply Hnotin. apply in_map_iff. now exists (k0, v).
Qed.

Section StoreProperties.
Variable http_get : string -> http_result.
Variable oracle : list AgentCard -> string -> result string.
Variable create_client : AgentCard -> result (string -> helper_stream).

Lemma discovered_entry (done : Z) (self : Router) (k : string) (c : AgentCard) :
  In (k, c) (cards (_discover http_get done self)) ->
  k = card_url c /\ dict_get (cards (_discover http_get done self)) k = Some c.
Proof.
  unfold _discover. cbn [cards]. unfold cards_by_url.
  rewrite cards_by_url_fetched. intros Hin. split.
  - apply put_cards_In in Hin. destruct Hin as [[] | [H _]]. exact H.
  - apply dict_get_NoDup; [|exact Hin]. apply put_cards_NoDup. constructor.
Qed.

Lemma discovered_fallback (done : Z) (self : Router) (q : string) :
  _fallback_by_tags (_discover http_get done self) q = NONE \/
  exists c,
    dict_get (cards (_discover http_get done self))
      (_fallback_by_tags (_discover http_get done self) q) = Some c /\
    card_matches q c.
Proof.
  unfold _fallback_by_tags. rewrite scan_cards_find.
  destruct (find (card_hits q) (dict_values (cards (_discover http_get done self))))
    as [c|] eqn:Hf; [right | now left].
  apply find_some in Hf. destruct Hf as [Hin Hhit].
  unfold dict_values in Hin. apply in_map_iff in Hin.
  destruct Hin as [[k c'] [Heq Hin]]. simpl in Heq. subst c'.
  apply discovered_entry in Hin. destruct Hin as [-> Hget].
  exists c. split; [exact Hget | now apply card_hits_spec].
Qed.

(** X7.  On a store that a discovery has built, a result of the
    fallback other than NONE is always a key of the store, bound to a
    card that matches the query; so on such a store the router reports
    that no helper is available exactly when the two stages resolve to
    NONE.  This holds for the store that the constructor leaves as
    well. *)
Theorem X7_discovered_store_routes_unless_NONE :
  forall (done : Z) (self : Router) (stage1 query : string),
    (_fallback_by_tags (_discover http_get done self) (lower query) = NONE \/
     exists c,
       dict_get (cards (_discover http_get done self))
         (_fallback_by_tags (_discover http_get done self) (lower query))
         = Some c /\
       card_matches (lower query) c) /\
    (routing_target (_discover http_get done self) stage1 query = None <->
     resolve (_discover http_get done self) stage1 query = NONE) /\
    (forall peers,
        routing_target (__init__ http_get done peers) stage1 query = None <->
        resolve (__init__ http_get done peers) stage1 query = NONE).
Proof.
  assert (Hroute : forall done self stage1 query,
             routing_target (_discover http_get done self) stage1 query = None <->
             resolve (_discover http_get done self) stage1 query = NONE).
  { intros done self stage1 query. rewrite routing_target_none.
    set (r := _discover http_get done self).
    split.
    - unfold resolve. destruct (no_target r stage1) eqn:Hs1.
      + destruct (discovered_fallback done self (lower query)) as [H | [c [Hget _]]];
          [intros _; exact H|].
        fold r in Hget. unfold no_target, dict_has. rewrite Hget.
        rewrite orb_false_r. intros H. now apply String.eqb_eq in H.
      + congruence.
    - intros ->. reflexivity. }
  intros done self stage1 query.
  split; [apply discovered_fallback|]. split; [apply Hroute|].
  intros peers. apply Hroute.
Qed.

(** X8.  [stream] refreshes the store only when more than 600 time
    units have passed since the last discovery.  Up to and including
    600 the router is left as it is and the network has no influence
    on what is yielded; beyond, the router that routes the request is
    the one that a discovery finishing at that moment leaves.  A
    request that arrives within 600 units of the construction is
    served from the store that the constructor built. *)
Theorem X8_refresh_only_when_stale :
  forall (now done : Z) (self : Router) (query : string),
    ((now - last_discovery self <= 600)%Z ->
     fst (stream http_get oracle create_client now done self query) = self /\
     forall other_network,
       stream other_network oracle create_client now done self query =
       stream http_get oracle create_client now done self query) /\
    ((now - last_discovery self > 600)%Z ->
     fst (stream http_get oracle create_client now done self query) =
     _discover http_get done self) /\
    (forall built peers,
        (now - built <= 600)%Z ->
        fst (stream http_get oracle create_client now done
               (__init__ http_get built peers) query) =
        __init__ http_get built peers).
Proof.
  assert (Hfresh : forall now done self network,
             (now - last_discovery self <= 600)%Z ->
             refresh_if_stale network now done self = self).
  { intros now done self network Hle. unfold refresh_if_stale.
    unfold DISCOVERY_INTERVAL.
    destruct (Z.gtb_spec (now - last_discovery self) 600); [lia | reflexivity]. }
  intros now done self query. split; [|split].
  - intros Hle. split.
    + rewrite stream_eq. cbn [fst]. now apply Hfresh.
    + intros other. rewrite !stream_eq.
      rewrite (Hfresh now done self other Hle).
      now rewrite (Hfresh now done self http_get Hle).
  - intros Hgt. rewrite stream_eq. cbn [fst]. unfold refresh_if_stale.
    unfold DISCOVERY_INTERVAL.
    destruct (Z.gtb_spec (now - last_discovery self) 600); [reflexivity | lia].
  - intros built peers Hle. rewrite stream_eq. cbn [fst].
    apply Hfresh. exact Hle.
Qed.

End StoreProperties.

Lemma X8_refresh_only_when_stale_witness :
  fst (stream Scenario.partial_network Scenario.time_oracle Scenario.time_client
         600 601 Scenario.stale_router "what time is it")
    = Scenario.stale_router /\
  cards (fst (stream Scenario.partial_network Scenario.time_oracle
                Scenario.time_client 601 602 Scenario.stale_router
                "what time is it"))
    = [ ("http://localhost:10000/", Scenario.time_card);
        ("http://localhost:10001/", Scenario.greet_card) ].
Proof.
  destruct (X8_refresh_only_when_stale Scenario.partial_network
              Scenario.time_oracle Scenario.time_client 600 601
              Scenario.stale_router "what time is it") as [Hfresh _].
  destruct (X8_refresh_only_when_stale Scenario.partial_network
              Scenario.time_oracle Scenario.time_client 601 602
              Scenario.stale_router "what time is it") as [_ [Hstale _]].
  split.
  - apply Hfresh. simpl. lia.
  - rewrite Hstale; [reflexivity | simpl; lia].
Defined.

Lemma X7_discovered_store_routes_unless_NONE_witness :
  dict_get (cards (_discover Scenario.partial_network 700 Scenario.stale_router))
    (_fallback_by_tags (_discover Scenario.partial_network 700 Scenario.stale_router)
       (lower "Tell me a QUOTE"))
    = Some Scenario.greet_card /\
  routing_target (_discover Scenario.partial_network 700 Scenario.stale_router)
    "http://localhost:10002/" "What is the capital of France?" = None.
Proof.
  destruct (X7_discovered_store_routes_unless_NONE Scenario.partial_network
              700 Scenario.stale_router "http://localhost:10002/"
              "What is the capital of France?") as [_ [Hroute _]].
  split; [reflexivity|]. apply Hroute. reflexivity.
Defined.

(* ------------------------------------------------------------------ *)
(** * The orchestrator's start-up *)

(** ** Stripping and splitting *)

Lemma substring_of_refl (s : string) : substring_of s s.
Proof.
  exists EmptyString, EmptyString. simpl.
  induction s as [|c s IH]; simpl; [reflexivity | now rewrite <- IH].
Qed.

Lemma substring_of_trans (a b c : string) :
  substring_of a b -> substring_of b c -> substring_of a c.
Proof.
  intros [p1 [q1 ->]] [p2 [q2 ->]].
  exists (p2 ++ p1)%string, (q1 ++ q2)%string.
  now rewrite !append_assoc_s.
Qed.

Lemma all_chars_app (p : ascii -> bool) (a b : string) :
  all_chars p (a ++ b)%string = all_chars p a && all_chars p b.
Proof.
  induction a as [|c a IH]; simpl; [reflexivity|].
  now rewrite IH, andb_assoc.
Qed.

Lemma all_chars_substring (p : ascii -> bool) (sub s : string) :
  substring_of sub s -> all_chars p s = true -> all_chars p sub = true.
Proof.
  intros [before [after ->]]. rewrite !all_chars_app.
  intros H. apply andb_prop in H. destruct H as [_ H].
  apply andb_prop in H. now destruct H.
Qed.

Lemma lstrip_suffix (s : string) :
  exists skipped, s = (skipped ++ lstrip s)%string.
Proof.
  induction s as [|c s [skipped IH]]; simpl.
  - now exists EmptyString.
  - destruct (is_space c).
    + exists (String c skipped). simpl. now rewrite <- IH.
    + now exists EmptyString.
Qed.

Lemma lstrip_first (s : string) (c : ascii) :
  first_char (lstrip s) = Some c -> is_space c = false.
Proof.
  induction s as [|x s IH]; simpl; [discriminate|].
  destruct (is_space x) eqn:Hx; [exact IH|].
  simpl. intros [= <-]. exact Hx.
Qed.

Lemma lstrip_blank (s : string) :
  all_chars is_space s = true -> lstrip s = EmptyString.
Proof.
  induction s as [|x s IH]; simpl; [reflexivity|].
  destruct (is_space x); [exact IH | discriminate].
Qed.

Lemma rstrip_prefix (s : string) :
  exists dropped, s = (rstrip s ++ dropped)%string.
Proof.
  induction s as [|c s [dropped IH]]; simpl.
  - now exists EmptyString.
  - destruct (rstrip s) as [|y kept] eqn:Hr; simpl in IH.
    + destruct (is_space c).
      * exists (String c s). reflexivity.
      * exists dropped. simpl. now rewrite <- IH.
    + exists dropped. simpl. now rewrite <- IH.
Qed.

Lemma rstrip_first (s : string) (c : ascii) :
  first_char (rstrip s) = Some c -> first_char s = Some c.
Proof.
  destruct s as [|x s]; simpl; [discriminate|].
  destruct (rstrip s); [destruct (is_space x); [discriminate|] |]; auto.
Qed.

Lemma rstrip_last (s : string) (c : ascii) :
  last_char (rstrip s) = Some c -> is_space c = false.
Proof.
  induction s as [|x s IH]; simpl; [discriminate|].
  destruct (rstrip s) as [|y kept] eqn:Hr.
  - destruct (is_space x) eqn:Hx; simpl; [discriminate|].
    intros [= <-]. exact Hx.
  - change (last_char (String x (String y kept)))
      with (match last_char (String y kept) with
            | Some d => Some d
            | None => Some x
            end).
    destruct (last_char (String y kept)) as [d|] eqn:Hl.
    + intros [= <-]. now apply IH.
    + simpl in Hl. destruct (last_char kept); discriminate.
Qed.

Lemma rstrip_keeps (s : string) (x : ascii) :
  is_space x = false -> rstrip (String x s) <> EmptyString.
Proof.
  intros Hx. simpl. destruct (rstrip s); [rewrite Hx|]; discriminate.
Qed.

Lemma strip_substring (s : string) : substring_of (strip s) s.
Proof.
  unfold strip. destruct (lstrip_suffix s) as [skipped Hs].
  destruct (rstrip_prefix (lstrip s)) as [dropped Hr].
  exists skipped, dropped. now rewrite <- Hr.
Qed.

Lemma strip_clean (s : string) :
  (forall c, first_char (strip s) = Some c -> is_space c = false) /\
  (forall c, last_char (strip s) = Some c -> is_space c = false).
Proof.
  unfold strip. split; intros c H.
  - apply rstrip_first in H. now apply lstrip_first in H.
  - now apply rstrip_last in H.
Qed.

Lemma split_cons (sep : ascii) (s : string) :
  exists field fields, split sep s = field :: fields.
Proof.
  destruct s as [|c s]; simpl; [eauto|].
  destruct (Ascii.eqb c sep); [eauto|].
  destruct (split sep s); eauto.
Qed.

Lemma split_fields (sep : ascii) (s field : string) :
  In field (split sep s) ->
  substring_of field s /\
  all_chars (fun c => negb (Ascii.eqb c sep)) field = true.
Proof.
  revert field. induction s as [|c s IH]; simpl; intros field.
  - intros [<- | []]. split; [apply substring_of_refl | reflexivity].
  - destruct (Ascii.eqb c sep) eqn:Hc.
    + intros [<- | Hin].
      * split; [|reflexivity]. exists EmptyString, (String c s). reflexivity.
      * destruct (IH _ Hin) as [[before [after Hs]] Hall].
        split; [|exact Hall].
        exists (String c before), after. simpl. now rewrite <- Hs.
    + destruct (split_cons sep s) as [f [fs Hsplit]]. rewrite Hsplit in *.
      intros [<- | Hin].
      * destruct (IH f (or_introl eq_refl)) as [[before [after Hs]] Hall].
        split; [|simpl; now rewrite Hc, Hall].
        (* the first field starts the string *)
        assert (Hstart : exists after', s = (f ++ after')%string).
        { clear -Hsplit. revert f fs Hsplit.
          induction s as [|d s IHs]; simpl; intros f fs Hsplit.
          - injection Hsplit as <- _. now exists EmptyString.
          - destruct (Ascii.eqb d sep).
            + injection Hsplit as <- _. now exists (String d s).
            + destruct (split_cons sep s) as [g [gs Hg]]. rewrite Hg in Hsplit.
              injection Hsplit as <- _.
              destruct (IHs g gs Hg) as [after' ->].
              now exists after'. }
        destruct Hstart as [after' ->].
        exists EmptyString, after'. reflexivity.
      * destruct (IH field (or_intror Hin)) as [[before [after Hs]] Hall].
        split; [|exact Hall].
        exists (String c before), after. simpl. now rewrite <- Hs.
Qed.

Lemma split_blank (s field : string) :
  all_chars blank_or_comma s = true ->
  In field (split comma s) -> all_chars is_space field = true.
Proof.
  intros Hblank Hin. destruct (split_fields comma s field Hin) as [Hsub Hnc].
  pose proof (all_chars_substring blank_or_comma Hsub Hblank) as Hb.
  clear -Hb Hnc. induction field as [|c f IH]; simpl in *; [reflexivity|].
  apply andb_prop in Hb. destruct Hb as [Hc Hb].
  apply andb_prop in Hnc. destruct Hnc as [Hn Hnc].
  unfold blank_or_comma in Hc. apply negb_true_iff in Hn. rewrite Hn in Hc.
  rewrite orb_false_r in Hc. rewrite Hc. now apply IH.
Qed.

Lemma split_keeps_text (s : string) :
  all_chars blank_or_comma s = false ->
  exists field, In field (split comma s) /\ strip field <> EmptyString.
Proof.
  induction s as [|c s IH]; simpl; [discriminate|].
  destruct (split_cons comma s) as [f [fs Hsplit]].
  destruct (blank_or_comma c) eqn:Hc; simpl.
  - intros Hrest. destruct (IH Hrest) as [field [Hin Hne]].
    destruct (Ascii.eqb c comma) eqn:Hcomma.
    + exists field. split; [now right | exact Hne].
    + unfold blank_or_comma in Hc. rewrite Hcomma, orb_false_r in Hc.
      rewrite Hsplit in *. destruct Hin as [<- | Hin].
      * exists (String c f). split; [now left|].
        unfold strip in *. simpl. now rewrite Hc.
      * exists field. split; [now right | exact Hne].
  - intros _. unfold blank_or_comma in Hc. apply orb_false_elim in Hc.
    destruct Hc as [Hspace Hcomma]. rewrite Hcomma, Hsplit.
    exists (String c f). split; [now left|].
    unfold strip. simpl lstrip. rewrite Hspace. now apply rstrip_keeps.
Qed.

Lemma parse_peers_blank (peers : string) :
  parse_peers peers = [] <-> all_chars blank_or_comma peers = true.
Proof.
  unfold parse_peers. split.
  - intros Hnil. destruct (all_chars blank_or_comma peers) eqn:Hb; [reflexivity|].
    destruct (split_keeps_text peers Hb) as [field [Hin Hne]].
    apply map_eq_nil in Hnil.
    assert (Hf : In field (filter (fun p => negb (String.eqb (strip p) EmptyString))
                             (split comma peers))).
    { apply filter_In. split; [exact Hin|].
      apply negb_true_iff. now apply String.eqb_neq. }
    rewrite Hnil in Hf. contradiction.
  - intros Hb.
    assert (Hnone : forall l,
               (forall f, In f l -> all_chars is_space f = true) ->
               filter (fun p => negb (String.eqb (strip p) EmptyString)) l = []).
    { induction l as [|f l IHl]; intros Hall; simpl; [reflexivity|].
      unfold strip at 1. rewrite (lstrip_blank f (Hall f (or_introl eq_refl))).
      simpl. apply IHl. intros g Hg. apply Hall. now right. }
    rewrite Hnone; [reflexivity|].
    intros f Hin. now apply (split_blank peers).
Qed.

Lemma parse_peers_entries (peers u : string) :
  In u (parse_peers peers) ->
  u <> EmptyString /\
  all_chars (fun c => negb (Ascii.eqb c comma)) u = true /\
  (forall c, first_char u = Some c -> is_space c = false) /\
  (forall c, last_char u = Some c -> is_space c = false) /\
  substring_of u peers.
Proof.
  unfold parse_peers. intros Hin. apply in_map_iff in Hin.
  destruct Hin as [field [<- Hin]]. apply filter_In in Hin.
  destruct Hin as [Hin Hne]. apply negb_true_iff, String.eqb_neq in Hne.
  destruct (split_fields comma peers field Hin) as [Hsub Hnc].
  split; [exact Hne|]. split.
  - exact (all_chars_substring _ (strip_substring field) Hnc).
  - destruct (strip_clean field) as [Hfirst Hlast].
    split; [exact Hfirst|]. split; [exact Hlast|].
    exact (substring_of_trans (strip_substring field) Hsub).
Qed.

Section Startup.
Variable http_get : string -> http_result.

(** X9.  When [main] gets as far as serving, the key was set and not
    empty, the peers were given, and the router was built, and
    discovered once, over a list of peer URLs that is not empty and
    whose entries are the comma-separated fields of the peers string
    with the white space around them removed: each entry is not
    empty, holds no comma, neither starts nor ends with white space,
    and occurs in the peers string. *)
Theorem X9_served_peers_are_clean :
  forall (done : Z) (GOOGLE_API_KEY peers : option string) (router : Router),
    main http_get done GOOGLE_API_KEY peers = Serving router ->
    (exists key, GOOGLE_API_KEY = Some key /\ key <> EmptyString) /\
    exists listed,
      peers = Some listed /\
      router = __init__ http_get done (parse_peers listed) /\
      peer_urls router = parse_peers listed /\
      peer_urls router <> [] /\
      last_discovery router = done /\
      forall u,
        In u (peer_urls router) ->
        u <> EmptyString /\
        all_chars (fun c => negb (Ascii.eqb c comma)) u = true /\
        (forall c, first_char u = Some c -> is_space c = false) /\
        (forall c, last_char u = Some c -> is_space c = false) /\
        substring_of u listed.
Proof.
  intros done key peers router. unfold main.
  destruct key as [key|]; [|discriminate].
  destruct (String.eqb_spec key EmptyString) as [->|Hkey]; [discriminate|].
  destruct peers as [listed|]; [|discriminate].
  destruct (parse_peers listed) as [|u0 us] eqn:Hp; [discriminate|].
  intros [= <-]. split; [now exists key|].
  exists listed. rewrite <- Hp. split; [reflexivity|]. split; [reflexivity|].
  split; [reflexivity|]. cbn [__init__ _discover peer_urls last_discovery].
  split; [rewrite Hp; discriminate|]. split; [reflexivity|].
  intros u. apply parse_peers_entries.
Qed.

(** X10.  [main] refuses to start in three ways.  Without the key, or
    with an empty one, it exits with code 1 whatever the peers are.
    With the key but with the peers option unset it fails with an
    AttributeError, since the option has no default, instead of
    printing its message.  With the key and a peers string it exits
    with code 1 and the message about missing peers exactly when the
    string holds nothing but white space and commas. *)
Theorem X10_startup_refusals :
  forall (done : Z) (GOOGLE_API_KEY peers : option string),
    (GOOGLE_API_KEY = None \/ GOOGLE_API_KEY = Some EmptyString ->
     main http_get done GOOGLE_API_KEY peers
       = Exited 1 "GOOGLE_API_KEY not set") /\
    (forall key,
        GOOGLE_API_KEY = Some key -> key <> EmptyString ->
        (peers = None ->
         main http_get done GOOGLE_API_KEY peers = AttributeErrorRaised) /\
        (forall listed,
            peers = Some listed ->
            (all_chars blank_or_comma listed = true <->
             main http_get done GOOGLE_API_KEY peers =
             Exited 1 "No peer agent URLs supplied (use --peers or A2A_PEERS)"))).
Proof.
  intros done key peers. split.
  - intros [-> | ->]; reflexivity.
  - intros k -> Hk. unfold main.
    destruct (String.eqb_spec k EmptyString) as [->|_]; [contradiction|].
    split; [now intros ->|].
    intros listed ->. rewrite <- parse_peers_blank.
    destruct (parse_peers listed); split; try reflexivity; discriminate.
Qed.

End Startup.

Lemma X9_served_peers_are_clean_witness :
  peer_urls (__init__ Scenario.partial_network 5
               (parse_peers " http://localhost:10000 ,,http://localhost:10001, "))
    = ["http://localhost:10000"; "http://localhost:10001"] /\
  exists listed,
    Some " http://localhost:10000 ,,http://localhost:10001, " = Some listed /\
    __init__ Scenario.partial_network 5
      (parse_peers " http://localhost:10000 ,,http://localhost:10001, ")
    = __init__ Scenario.partial_network 5 (parse_peers listed) /\
    peer_urls (__init__ Scenario.partial_network 5
                 (parse_peers " http://localhost:10000 ,,http://localhost:10001, "))
      = parse_peers listed /\
    peer_urls (__init__ Scenario.partial_network 5
                 (parse_peers " http://localhost:10000 ,,http://localhost:10001, "))
      <> [] /\
    last_discovery
      (__init__ Scenario.partial_network 5
         (parse_peers " http://localhost:10000 ,,http://localhost:10001, ")) = 5%Z /\
    forall u,
      In u (peer_urls
              (__init__ Scenario.partial_network 5
                 (parse_peers " http://localhost:10000 ,,http://localhost:10001, "))) ->
      u <> EmptyString /\
      all_chars (fun c => negb (Ascii.eqb c comma)) u = true /\
      (forall c, first_char u = Some c -> is_space c = false) /\
      (forall c, last_char u = Some c -> is_space c = false) /\
      substring_of u listed.
Proof.
  split; [reflexivity|].
  apply (X9_served_peers_are_clean Scenario.partial_network 5
           (Some "gemini-key")
           (Some " http://localhost:10000 ,,http://localhost:10001, ")).
  reflexivity.
Defined.

Lemma X10_startup_refusals_witness :
  main Scenario.partial_network 5 (Some EmptyString)
    (Some "http://localhost:10000") = Exited 1 "GOOGLE_API_KEY not set" /\
  main Scenario.partial_network 5 (Some "gemini-key") None
    = AttributeErrorRaised /\
  main Scenario.partial_network 5 (Some "gemini-key") (Some " , ,")
    = Exited 1 "No peer agent URLs supplied (use --peers or A2A_PEERS)".
Proof.
  destruct (X10_startup_refusals Scenario.partial_network 5
              (Some EmptyString) (Some "http://localhost:10000")) as [Hkey _].
  destruct (X10_startup_refusals Scenario.partial_network 5
              (Some "gemini-key") None) as [_ Hunset].
  destruct (X10_startup_refusals Scenario.partial_network 5
              (Some "gemini-key") (Some " , ,")) as [_ Hblank].
  split; [|split].
  - apply Hkey. now right.
  - apply (Hunset "gemini-key" eq_refl); [discriminate | reflexivity].
  - apply (proj2 (Hblank "gemini-key" eq_refl ltac:(discriminate)) " , ," eq_refl).
    reflexivity.
Defined.

(* ------------------------------------------------------------------ *)
(** * The helper agents and their executors *)

Lemma consume_cons (turn : event -> list queue_event * control)
  (step : event) (rest : list event) (fin : option exn) :
  consume turn (step :: rest) fin =
  match turn step with
  | (out, Next) => (out ++ fst (consume turn rest fin), snd (consume turn rest fin))
  | (out, Stop) => (out, None)
  | (out, Throw e) => (out, Some e)
  end.
Proof.
  cbn [consume]. destruct (turn step) as [out [| |e]]; try reflexivity.
  destruct (consume turn rest fin); reflexivity.
Qed.

Lemma time_notes (msgs : list TimeAgent.graph_message) :
  flat_map TimeAgent.note msgs =
  map (step_dict false false) (flat_map note_text msgs).
Proof.
  induction msgs as [|msg msgs IH]; simpl; [reflexivity|].
  rewrite map_app, IH. destruct msg as [[|call calls] | |]; reflexivity.
Qed.

Lemma time_consume_notes (task : Task) (texts : list string)
  (rest : list event) (fin : option exn) :
  consume (TimeAgent.turn task) (map (step_dict false false) texts ++ rest) fin =
  (map (fun text => working_update text task) texts
   ++ fst (consume (TimeAgent.turn task) rest fin),
   snd (consume (TimeAgent.turn task) rest fin)).
Proof.
  induction texts as [|text texts IH]; simpl map; cbn [app].
  - destruct (consume (TimeAgent.turn task) rest fin); reflexivity.
  - rewrite consume_cons.
    change (TimeAgent.turn task (step_dict false false text))
      with ([working_update text task], Next).
    rewrite IH. reflexivity.
Qed.

Lemma terminal_count_working (task : Task) (texts : list string) :
  terminal_count (map (fun text => working_update text task) texts) = 0.
Proof.
  induction texts as [|text texts IH]; [reflexivity | exact IH].
Qed.

Section HelperExecutors.
Variable new_task : Message -> Task.

(** X11.  The time agent's executor, run over the time agent's own
    stream, ends every request whose graph run does not fail with
    exactly one terminal event, which is the last event: after one
    working status per progress note it puts on the queue either the
    artifact with the answer followed by a completed status without
    message, when the structured response has status completed, or a
    single final status with state input-required otherwise; a
    structured response with status error, and a missing one, are both
    reported as input required.  When the graph run fails, only the
    working statuses are put on the queue and the exception is
    raised. *)
Theorem X11_time_agent_one_terminal_event :
  forall (graph : string -> string -> TimeAgent.graph_run)
         (ctx : RequestContext) (m : Message) (run : TimeAgent.graph_run),
    message ctx = Some m ->
    run = graph (user_input m) (context_id (orch_task_of new_task ctx m)) ->
    (forall e,
        TimeAgent.failure run = Some e ->
        TimeAgent.execute new_task (fun q c => TimeAgent.stream (graph q c)) ctx =
        (task_created new_task ctx m
         ++ map (fun text => working_update text (orch_task_of new_task ctx m))
              (flat_map note_text (TimeAgent.last_messages run)),
         Some e)) /\
    (TimeAgent.failure run = None ->
     (forall r,
         TimeAgent.structured_response run = Some r ->
         TimeAgent.status r = TimeAgent.status_completed ->
         TimeAgent.execute new_task (fun q c => TimeAgent.stream (graph q c)) ctx =
         (task_created new_task ctx m
          ++ map (fun text => working_update text (orch_task_of new_task ctx m))
               (flat_map note_text (TimeAgent.last_messages run))
          ++ [ result_update "current_result" "Result of request to agent."
                 (TimeAgent.response_message r) (orch_task_of new_task ctx m);
               done_update (orch_task_of new_task ctx m) ],
          None)) /\
     (forall r,
         TimeAgent.structured_response run = Some r ->
         TimeAgent.status r <> TimeAgent.status_completed ->
         TimeAgent.execute new_task (fun q c => TimeAgent.stream (graph q c)) ctx =
         (task_created new_task ctx m
          ++ map (fun text => working_update text (orch_task_of new_task ctx m))
               (flat_map note_text (TimeAgent.last_messages run))
          ++ [ input_update (TimeAgent.response_message r)
                 (orch_task_of new_task ctx m) ],
          None)) /\
     (TimeAgent.structured_response run = None ->
      TimeAgent.execute new_task (fun q c => TimeAgent.stream (graph q c)) ctx =
      (task_created new_task ctx m
       ++ map (fun text => working_update text (orch_task_of new_task ctx m))
            (flat_map note_text (TimeAgent.last_messages run))
       ++ [ input_update "Sorry, I couldn’t get the time. Please try again?"
              (orch_task_of new_task ctx m) ],
       None)) /\
     terminal_count
       (fst (TimeAgent.execute new_task
               (fun q c => TimeAgent.stream (graph q c)) ctx)) = 1).
Proof.
  intros graph ctx m run Hm Hrun.
  assert (Hexec :
    TimeAgent.execute new_task (fun q c => TimeAgent.stream (graph q c)) ctx =
    (task_created new_task ctx m
     ++ fst (consume (TimeAgent.turn (orch_task_of new_task ctx m))
               (yielded (TimeAgent.stream run))
               (ending (TimeAgent.stream run))),
     snd (consume (TimeAgent.turn (orch_task_of new_task ctx m))
            (yielded (TimeAgent.stream run))
            (ending (TimeAgent.stream run))))).
  { unfold TimeAgent.execute, task_created, orch_task_of in *. rewrite Hm.
    rewrite <- Hrun.
    destruct (current_task ctx); destruct (consume _ _ _); reflexivity. }
  rewrite Hexec. clear Hexec Hrun graph.
  set (task := orch_task_of new_task ctx m).
  unfold TimeAgent.stream. split.
  - intros e He. rewrite He. cbn [yielded ending]. rewrite time_notes.
    rewrite <- (app_nil_r (map (step_dict false false) _)).
    rewrite time_consume_notes. cbn [consume fst snd].
    now rewrite app_nil_r.
  - intros Hok. rewrite Hok. cbn [yielded ending]. rewrite time_notes.
    rewrite time_consume_notes.
    assert (Hdone : forall r,
               TimeAgent.structured_response run = Some r ->
               TimeAgent.status r = TimeAgent.status_completed ->
               consume (TimeAgent.turn task)
                 [TimeAgent._final (TimeAgent.structured_response run)] None =
               ([ result_update "current_result" "Result of request to agent."
                    (TimeAgent.response_message r) task;
                  done_update task ], None)).
    { intros r Hr Hs. rewrite Hr. unfold TimeAgent._final. rewrite Hs.
      reflexivity. }
    assert (Hinput : forall r,
               TimeAgent.structured_response run = Some r ->
               TimeAgent.status r <> TimeAgent.status_completed ->
               consume (TimeAgent.turn task)
                 [TimeAgent._final (TimeAgent.structured_response run)] None =
               ([input_update (TimeAgent.response_message r) task], None)).
    { intros r Hr Hs. rewrite Hr. unfold TimeAgent._final.
      destruct (TimeAgent.status r); [contradiction | reflexivity | reflexivity]. }
    assert (Hnone :
               TimeAgent.structured_response run = None ->
               consume (TimeAgent.turn task)
                 [TimeAgent._final (TimeAgent.structured_response run)] None =
               ([input_update "Sorry, I couldn’t get the time. Please try again?"
                   task], None)).
    { intros ->. reflexivity. }
    split; [intros r Hr Hs; now rewrite (Hdone r Hr Hs)|].
    split; [intros r Hr Hs; now rewrite (Hinput r Hr Hs)|].
    split; [intros Hr; now rewrite (Hnone Hr)|].
    cbn [fst]. rewrite !terminal_count_app.
    rewrite task_created_not_terminal, terminal_count_working.
    destruct (TimeAgent.structured_response run) as [r|] eqn:Hr.
    + destruct (TimeAgent.status r) eqn:Hs.
      * rewrite (Hdone r eq_refl Hs). reflexivity.
      * rewrite (Hinput r eq_refl); [reflexivity | congruence].
      * rewrite (Hinput r eq_refl); [reflexivity | congruence].
    + rewrite (Hnone eq_refl). reflexivity.
Qed.

End HelperExecutors.

Lemma time_turn_well_formed (task : Task) (step : event) :
  well_formed_step step ->
  exists out,
    TimeAgent.turn task step = (out, Next) /\
    terminal_count out = (if flagged step then 1 else 0).
Proof.
  intros [[complete Hc] [[need Hn] [text Ht]]].
  unfold TimeAgent.turn, flagged, py_get. rewrite Hc, Hn, Ht.
  destruct (truthy complete); [eexists; split; reflexivity|].
  cbn [new_agent_text_message ret].
  destruct (truthy need); eexists; split; reflexivity.
Qed.

(** X12.  The loop of the time agent's executor has no [break]: over
    well-formed steps it raises nothing of its own and puts one
    terminal event on the queue for every step that has its completion
    flag or its input flag set, so that a stream with several such
    steps gives several terminal events. *)
Theorem X12_time_executor_terminal_per_flagged_step :
  forall (task : Task) (steps : list event) (fin : option exn),
    (forall step, In step steps -> well_formed_step step) ->
    snd (consume (TimeAgent.turn task) steps fin) = fin /\
    terminal_count (fst (consume (TimeAgent.turn task) steps fin)) =
    List.length (filter flagged steps).
Proof.
  intros task steps fin. induction steps as [|step rest IH]; intros Hwf.
  - split; reflexivity.
  - rewrite consume_cons.
    destruct (@time_turn_well_formed task step (Hwf step (or_introl eq_refl)))
      as [out [-> Hcount]].
    destruct IH as [Hres Hrest]; [intros s Hs; apply Hwf; now right|].
    cbn [fst snd]. split; [exact Hres|].
    rewrite terminal_count_app, Hcount, Hrest. simpl.
    destruct (flagged step); reflexivity.
Qed.

Lemma X12_time_executor_terminal_per_flagged_step_witness :
  snd (consume (TimeAgent.turn Scenario.task1) Scenario.repeated_steps None)
    = None /\
  terminal_count
    (fst (consume (TimeAgent.turn Scenario.task1) Scenario.repeated_steps None))
    = 3.
Proof.
  apply (X12_time_executor_terminal_per_flagged_step Scenario.task1
           Scenario.repeated_steps None).
  intros step Hin.
  repeat (destruct Hin as [<- | Hin];
          [repeat split; eexists; reflexivity|]).
  contradiction.
Defined.

Lemma X11_time_agent_one_terminal_event_witness :
  TimeAgent.execute Scenario.new_task
    (fun q c => TimeAgent.stream Scenario.tokyo_run) Scenario.first_request
  = ([ TaskEvent Scenario.task1;
       working_update "Fetching the local time…" Scenario.task1;
       working_update "Formatting the result…" Scenario.task1;
       result_update "current_result" "Result of request to agent."
         "It is 10:00:00 in Asia/Tokyo." Scenario.task1;
       done_update Scenario.task1 ],
     None) /\
  TimeAgent.execute Scenario.new_task
    (fun q c => TimeAgent.stream Scenario.error_run) Scenario.follow_up_request
  = ([input_update "The time service failed." Scenario.task1], None).
Proof.
  destruct (X11_time_agent_one_terminal_event Scenario.new_task
              (fun _ _ => Scenario.tokyo_run) Scenario.first_request
              (m := Scenario.time_question) eq_refl eq_refl) as [_ Hok].
  destruct (Hok eq_refl) as [Hdone _].
  destruct (X11_time_agent_one_terminal_event Scenario.new_task
              (fun _ _ => Scenario.error_run) Scenario.follow_up_request
              (m := Scenario.time_question) eq_refl eq_refl) as [_ Hok'].
  destruct (Hok' eq_refl) as [_ [Hinput _]].
  split.
  - exact (Hdone _ eq_refl eq_refl).
  - apply (Hinput _ eq_refl). discriminate.
Defined.

Section GreetExecutor.
Variable new_task : Message -> Task.
Variable model : string -> result string.

(** X13.  The greeting agent's executor, run over the greeting agent's
    stream, puts on the queue one working status with the progress
    note and then, when the model has replied, the artifact with the
    reply stripped of the white space around it, followed by a
    completed status without message, the only terminal event; when
    the call of the model fails, the working status is all that is put
    on the queue and the exception is raised, with no terminal
    event. *)
Theorem X13_greeting_agent_request :
  forall (ctx : RequestContext) (m : Message),
    message ctx = Some m ->
    (forall content,
        model (user_input m) = inr content ->
        GreetAgent.execute new_task (fun q c => GreetAgent.stream model q) ctx =
        (task_created new_task ctx m
         ++ [ working_update "Crafting your personalized greeting…"
                (orch_task_of new_task ctx m);
              result_update "greeting" "Greeting with quote" (strip content)
                (orch_task_of new_task ctx m);
              done_update (orch_task_of new_task ctx m) ],
         None) /\
        (forall c, first_char (strip content) = Some c -> is_space c = false) /\
        (forall c, last_char (strip content) = Some c -> is_space c = false) /\
        substring_of (strip content) content) /\
    (forall e,
        model (user_input m) = inl e ->
        GreetAgent.execute new_task (fun q c => GreetAgent.stream model q) ctx =
        (task_created new_task ctx m
         ++ [ working_update "Crafting your personalized greeting…"
                (orch_task_of new_task ctx m) ],
         Some e)).
Proof.
  intros ctx m Hm. split.
  - intros content Hmodel. split.
    + unfold GreetAgent.execute, GreetAgent.stream, task_created, orch_task_of.
      rewrite Hm, Hmodel. destruct (current_task ctx); reflexivity.
    + destruct (strip_clean content) as [Hfirst Hlast].
      split; [exact Hfirst|]. split; [exact Hlast | apply strip_substring].
  - intros e Hmodel.
    unfold GreetAgent.execute, GreetAgent.stream, task_created, orch_task_of.
    rewrite Hm, Hmodel. destruct (current_task ctx); reflexivity.
Qed.

End GreetExecutor.

Lemma X13_greeting_agent_request_witness :
  GreetAgent.execute Scenario.new_task
    (fun q c => GreetAgent.stream Scenario.greeting_model q)
    Scenario.follow_up_request
  = ([ working_update "Crafting your personalized greeting…" Scenario.task1;
       result_update "greeting" "Greeting with quote" "Hello there!" Scenario.task1;
       done_update Scenario.task1 ],
     None) /\
  GreetAgent.execute Scenario.new_task
    (fun q c => GreetAgent.stream Scenario.failing_model q)
    Scenario.follow_up_request
  = ([ working_update "Crafting your personalized greeting…" Scenario.task1 ],
     Some (RuntimeFailure "model unavailable")).
Proof.
  destruct (X13_greeting_agent_request Scenario.new_task Scenario.greeting_model
              Scenario.follow_up_request (m := Scenario.time_question) eq_refl)
    as [Hreply _].
  destruct (X13_greeting_agent_request Scenario.new_task Scenario.failing_model
              Scenario.follow_up_request (m := Scenario.time_question) eq_refl)
    as [_ Hfail].
  split.
  - exact (proj1 (Hreply _ eq_refl)).
  - exact (Hfail _ eq_refl).
Defined.

(* ------------------------------------------------------------------ *)
(** * The client's search for text *)

Lemma with_entry_get {A} (k : string) (absent : A) (present : pyval -> A)
  (d : list (string * pyval)) :
  Client.with_entry k absent present d =
  match dict_get d k with
  | Some v => present v
  | None => absent
  end.
Proof.
  induction d as [|[k' v] d IH]; simpl; [reflexivity|].
  destruct (String.eqb k k'); [reflexivity | exact IH].
Qed.

Lemma first_text_of_nothing (results : list (result pyval)) :
  Forall (fun r => r = inr PNone) results ->
  Client.first_text_of results = inr PNone.
Proof.
  induction 1 as [|r results Hr _ IH]; simpl; [reflexivity|].
  rewrite Hr. exact IH.
Qed.

Lemma dict_has_false_get {V} (d : dict V) (k : string) :
  dict_has d k = false -> dict_get d k = None.
Proof.
  unfold dict_has. destruct (dict_get d k); [discriminate | reflexivity].
Qed.

Lemma dict_get_value {V} (d : dict V) (k : string) (v : V) :
  dict_get d k = Some v -> In v (map snd d).
Proof.
  induction d as [|[k' v'] d IH]; simpl; [discriminate|].
  destruct (String.eqb k k'); [intros [= ->]; now left | right; now apply IH].
Qed.

Lemma dict_get_entry {V} (d : dict V) (k : string) (v : V) :
  dict_get d k = Some v -> exists k', In (k', v) d.
Proof.
  induction d as [|[k0 v0] d IH]; cbn [dict_get]; [discriminate|].
  destruct (String.eqb k k0).
  - intros [= ->]. exists k0. now left.
  - intros H. destruct (IH H) as [k' Hk]. exists k'. now right.
Qed.

Lemma walk_artifact_free (node : pyval) :
  (artifact_free node = true -> Client._walk node = inr PNone) /\
  match node with
  | PDict d =>
      artifact_free node = true ->
      forall v, In v (map snd d) -> Client._walk v = inr PNone
  | _ => True
  end.
Proof.
  induction node as [| b | z | s | l IH | d IH] using pyval_ind;
    try (split; [reflexivity | exact I]).
  - split; [|exact I]. intros Hfree. cbn [Client._walk].
    apply first_text_of_nothing. cbn [artifact_free] in Hfree.
    rewrite forallb_forall in Hfree. rewrite Forall_forall in IH.
    apply Forall_forall. intros r Hr. apply in_map_iff in Hr.
    destruct Hr as [v [<- Hv]]. now apply (IH v Hv), Hfree.
  - assert (Hchildren : artifact_free (PDict d) = true ->
                        forall v, In v (map snd d) -> Client._walk v = inr PNone).
    { cbn [artifact_free]. intros Hfree v Hv.
      apply andb_prop in Hfree. destruct Hfree as [_ Hall].
      rewrite forallb_forall in Hall. rewrite Forall_forall in IH.
      apply in_map_iff in Hv. destruct Hv as [[k v'] [Heq Hin]].
      simpl in Heq. subst v'.
      exact (proj1 (IH (k, v) Hin) (Hall (k, v) Hin)). }
    split; [|exact Hchildren].
    intros Hfree. pose proof (Hchildren Hfree) as Hvals.
    pose proof Hfree as Hkeys. cbn [artifact_free] in Hkeys.
    apply andb_prop in Hkeys. destruct Hkeys as [Hkeys Hall].
    apply andb_prop in Hkeys. destruct Hkeys as [Ha Hb].
    apply negb_true_iff in Ha. apply negb_true_iff in Hb.
    cbn [Client._walk]. rewrite (dict_has_false_get _ _ Hb).
    rewrite (dict_has_false_get _ _ Ha). cbn [bind ret truthy].
    rewrite with_entry_get.
    assert (Hstatus :
      match dict_get d "status" with
      | Some st =>
          match st with
          | PDict sd =>
              Client.with_entry "message" (ret PNone)
                (fun msg => match msg with
                            | PDict _ => Client._walk msg
                            | _ => ret PNone
                            end) sd
          | _ => ret PNone
          end
      | None => ret PNone
      end = inr PNone).
    { destruct (dict_get d "status") as [st|] eqn:Hst; [|reflexivity].
      destruct st as [| | | | |sd]; try reflexivity.
      rewrite with_entry_get.
      destruct (dict_get sd "message") as [msg|] eqn:Hmsg; [|reflexivity].
      destruct msg as [| | | | |md]; try reflexivity.
      (* the message lies two levels below the node *)
      rewrite forallb_forall in Hall. rewrite Forall_forall in IH.
      destruct (dict_get_entry d "status" Hst) as [k Hin].
      apply (proj2 (IH (k, PDict sd) Hin) (Hall (k, PDict sd) Hin)).
      now apply (dict_get_value sd "message"). }
    rewrite Hstatus. cbn [bind truthy].
    apply first_text_of_nothing. apply Forall_forall. intros r Hr.
    apply in_map_iff in Hr. destruct Hr as [[k v] [<- Hin]].
    apply Hvals. apply in_map_iff. now exists (k, v).
Qed.

(** X14.  The client finds text in artifacts only: in a structure that
    has the key artifact or artifacts nowhere, however deeply status
    messages and text parts are nested in it, [_walk] finds nothing
    and raises nothing.  So the text of a status message alone, the
    final completed status included, is never what the client
    shows. *)
Theorem X14_client_text_comes_from_artifacts :
  forall node : pyval,
    artifact_free node = true -> Client._walk node = inr PNone.
Proof.
  intros node. apply walk_artifact_free.
Qed.

Lemma X14_client_text_comes_from_artifacts_witness :
  Client._walk (PDict Scenario.status_update_dump) = inr PNone.
Proof.
  apply X14_client_text_comes_from_artifacts. reflexivity.
Defined.

(** X15.  What an executor puts into an artifact with
    [new_text_artifact], the client and the orchestrator both get
    back: for a text that is not empty, [_artifact_text] of the client
    and [_first_text] of the orchestrator's executor return that text
    from the artifact, and the client's [_extract_text] returns it from
    every event that holds the artifact under the key artifact and has
    no key artifacts. *)
Theorem X15_text_artifact_round_trip :
  forall (name description text : string) (art : pyval),
    text <> EmptyString ->
    new_text_artifact name description (PStr text) = inr art ->
    Client._artifact_text art = inr (PStr text) /\
    _first_text art = PStr text /\
    forall ev,
      dict_get ev "artifact" = Some art ->
      dict_get ev "artifacts" = None ->
      Client._extract_text ev = inr (PStr text).
Proof.
  intros name description text art Hne Hart.
  unfold new_text_artifact, ret in Hart. injection Hart as <-.
  assert (Htruthy : negb (String.eqb text EmptyString) = true).
  { apply negb_true_iff. now apply String.eqb_neq. }
  split; [reflexivity|]. split.
  - cbn. rewrite Htruthy. cbn. now rewrite Htruthy.
  - intros ev Ha Hnone. unfold Client._extract_text. cbn [Client._walk].
    rewrite Hnone, Ha. cbn. now rewrite Htruthy.
Qed.

Lemma X15_text_artifact_round_trip_witness :
  Client._artifact_text
    (PDict [ ("name", PStr "answer");
             ("description", PStr "Final answer from downstream agent");
             ("parts", PList [PDict [ ("kind", PStr "text");
                                      ("text", PStr "It is 10:00:00 in Asia/Tokyo.") ]]) ])
  = inr (PStr "It is 10:00:00 in Asia/Tokyo.").
Proof.
  refine (proj1 (@X15_text_artifact_round_trip
                   "answer" "Final answer from downstream agent"
                   "It is 10:00:00 in Asia/Tokyo." _ _ eq_refl)).
  discriminate.
Defined.

Lemma collect_from_skips (last_event : option event) (before rest : list event)
  (fin : option exn) :
  (forall b, In b before -> shows_nothing b) ->
  Client.collect_from last_event (before ++ rest) fin =
  Client.collect_from
    (match rev before with
     | b :: _ => Some b
     | [] => last_event
     end) rest fin.
Proof.
  revert last_event. induction before as [|b before IH]; intros last_event Hall.
  - reflexivity.
  - cbn [app Client.collect_from].
    destruct (Hall b (or_introl eq_refl)) as [txt [-> Hfalsy]].
    cbn [bind]. rewrite Hfalsy. rewrite IH by (intros x Hx; apply Hall; now right).
    cbn [rev]. destruct (rev before) as [|x xs]; reflexivity.
Qed.

(** X16.  [_collect_stream] returns the first event of the stream in
    which the client finds text, without looking at the events after
    it or at the way the stream ends; when no event shows text it
    returns the last event, and nothing for an empty stream, and an
    exception that ends such a stream is passed on. *)
Theorem X16_collect_returns_first_event_with_text :
  forall (before : list event) (ev : event),
    (forall b, In b before -> shows_nothing b) ->
    (shows_text ev ->
     forall rest fin,
       Client._collect_stream (before ++ ev :: rest) fin = inr (Some ev)) /\
    (shows_nothing ev ->
     Client._collect_stream (before ++ [ev]) None = inr (Some ev)) /\
    (forall e, Client._collect_stream before (Some e) = inl e) /\
    Client._collect_stream [] None = inr None.
Proof.
  intros before ev Hall. unfold Client._collect_stream.
  split; [|split; [|split]].
  - intros [txt [Htxt Htruthy]] rest fin.
    rewrite (@collect_from_skips None before (ev :: rest) fin Hall).
    cbn [Client.collect_from]. rewrite Htxt. cbn [bind]. now rewrite Htruthy.
  - intros [txt [Htxt Hfalsy]].
    rewrite (@collect_from_skips None before [ev] None Hall).
    cbn [Client.collect_from]. rewrite Htxt. cbn [bind]. now rewrite Hfalsy.
  - intros e. rewrite <- (app_nil_r before).
    rewrite (@collect_from_skips None before [] (Some e) Hall). reflexivity.
  - reflexivity.
Qed.

Lemma X16_collect_returns_first_event_with_text_witness :
  Client._collect_stream
    [ Scenario.status_update_dump; Scenario.greeting_update_dump;
      Scenario.helper_message ] (Some KeyError)
  = inr (Some Scenario.greeting_update_dump) /\
  Client._collect_stream
    [ Scenario.status_update_dump; Scenario.helper_message ] None
  = inr (Some Scenario.helper_message).
Proof.
  assert (Hstatus : forall b, In b [Scenario.status_update_dump] -> shows_nothing b).
  { intros b [<- | []]. exists PNone. split; reflexivity. }
  split.
  - refine (proj1 (X16_collect_returns_first_event_with_text
                     [Scenario.status_update_dump] Scenario.greeting_update_dump
                     Hstatus) _ [Scenario.helper_message] (Some KeyError)).
    exists (PStr "Hello there!"). split; reflexivity.
  - refine (proj1 (proj2 (X16_collect_returns_first_event_with_text
                            [Scenario.status_update_dump] Scenario.helper_message
                            Hstatus)) _).
    exists PNone. split; reflexivity.
Defined.
